(** * idea-to-startup backend: the two gateway variants of [server.js]

    [startup/backend/server.js] holds two programs: the classic, long-running
    server (it ends in [app.listen]) and the serverless one (it exports [app]
    and caches its mongoose connection in [global.mongoose]).  Both are
    embedded here: the pure configuration as functions of [process.env], the
    migration callback in a small state-and-exception monad over a document
    store, and the connection bootstrap as an event machine whose labels are
    the turns of the JavaScript event loop. *)

From stdpp Require Import gmap strings list fin_maps.
From Stdlib Require Import ZArith.

Local Open Scope Z_scope.

(* ===================================================================== *)
(** ** JavaScript values used by the gateway                              *)
(* ===================================================================== *)

Module Js.

(** [process.env]: a variable that is not set reads as [undefined]. *)
Abbreviation env := (gmap string string).

(** Truthiness of a string-or-undefined value: [undefined] and the empty
    string are falsy. *)
Definition truthy_string (v : option string) : bool :=
  match v with
  | Some s => bool_decide (s ≠ "")
  | None => false
  end.

(** Truthiness of a number-or-undefined value: [undefined] and [0] are
    falsy. *)
Definition truthy_number (v : option Z) : bool :=
  match v with
  | Some z => bool_decide (z ≠ 0)
  | None => false
  end.

(** [v || d] with a string default. *)
Definition or_string (v : option string) (d : string) : string :=
  match v with
  | Some s => if truthy_string v then s else d
  | None => d
  end.

(** [v || d] with a number default. *)
Definition or_number (v : option Z) (d : Z) : Z :=
  match v with
  | Some z => if truthy_number v then z else d
  | None => d
  end.

(** [v === "lit"] for a string-or-undefined [v]. *)
Definition strict_eq (v : option string) (lit : string) : bool :=
  bool_decide (v = Some lit).

(** [arr.includes(x)] on an array of strings with possibly undefined
    slots. *)
Definition includes (arr : list (option string)) (x : option string) : bool :=
  bool_decide (x ∈ arr).

(** An [Error] object as far as the gateway reads it: the optional
    [status] set by HTTP-aware throwers, [message] and [stack]. *)
Record Error := mkError {
  status : option Z;
  message : option string;
  stack : option string
}.

(** [new Error(msg)]: no [status]; the stack trace starts with the
    message. *)
Definition new_Error (msg : string) : Error :=
  {| status := None; message := Some msg; stack := Some ("Error: " +:+ msg) |}.

(** One [console.log] / [console.error] call: the format string and the
    optional second argument. *)
Inductive log_entry :=
| Log (text : string)
| LogWith (text : string) (arg : option string).

(** The body of an error response. *)
Record error_body := mkBody { success : bool; body_message : string }.

(** Express's [res]: the status set so far and the bodies sent. *)
Record res := mkRes {
  statusCode : Z;
  sent : list (Z * error_body)
}.

Definition fresh_res : res := {| statusCode := 200; sent := [] |}.

(** [res.status(code)], for a code the response can be sent under (see
    [valid_status] below): with another code the real call, or the send
    that follows it, throws, and nothing is sent. *)
Definition res_status (code : Z) (r : res) : res :=
  {| statusCode := code; sent := sent r |}.

(** [res.json(body)] sends [body] under the current status, on a response
    that has not been answered yet (the real call throws once the headers
    are out). *)
Definition res_json (body : error_body) (r : res) : res :=
  {| statusCode := statusCode r; sent := sent r ++ [(statusCode r, body)] |}.

End Js.

(* ===================================================================== *)
(** ** CORS origin callback (same code in both variants)                  *)
(* ===================================================================== *)

Module Cors.
Import Js.

(** [allowedOrigins]: the configured frontend URL and the two local
    development origins. *)
Definition allowedOrigins (e : env) : list (option string) :=
  [ e !! "GOOGLE_CLIENT_URL";
    Some "http://localhost:5173";
    Some "http://localhost:3000" ].

(** What the origin function hands to its callback:
    [callback(null, true)] or [callback(err)]. *)
Inductive verdict :=
| Allow
| Reject (err : Error).

(** The [origin] option of the cors middleware.  [o] is
    [req.headers.origin]: [None] when the request has no Origin header. *)
Definition origin (e : env) (o : option string) : verdict :=
  if negb (truthy_string o) then Allow
  else if includes (allowedOrigins e) o then Allow
  else Reject (new_Error "Not allowed by CORS").

End Cors.

(* ===================================================================== *)
(** ** Session options                                                    *)
(* ===================================================================== *)

Module Session.

(** Where a [MongoStore] takes its connection from. *)
Inductive source :=
| ClientPromise                   (* clientPromise: the module's promise *)
| MongoUrl (url : option string). (* mongoUrl: a raw connection string   *)

Record store_options := mkStore {
  connection : source;
  collectionName : string;
  ttl : Z;                        (* seconds *)
  autoRemove : option string
}.

Record cookie_options := mkCookie {
  httpOnly : bool;
  secure : bool;
  sameSite : string;
  maxAge : Z                      (* milliseconds *)
}.

Record options := mkOptions {
  name : string;
  secret : option string;
  resave : bool;
  saveUninitialized : bool;
  store : store_options;
  cookie : cookie_options
}.

End Session.

(* ===================================================================== *)
(** ** The mongoose primitives the bootstrap calls                        *)
(* ===================================================================== *)

Module Mongo.
Import Js.

(** Field values of a stored document. *)
Inductive bson :=
| BNull
| BString (s : string)
| BNumber (z : Z)
| BBool (b : bool).

#[global] Instance bson_eq_dec : EqDecision bson.
Proof. solve_decision. Defined.

(** A document: its fields by name.  A field that is not in the map is
    absent from the document, which is not the same as holding
    [BNull]. *)
Abbreviation document := (gmap string bson).

(** The [User] model: the documents of its collection, the names of the
    indexes the collection has, and the names of the indexes its schema
    declares (the schema file is not part of the bootstrap). *)
Record user_model := mkModel {
  docs : list document;
  indexes : gset string;
  schemaIndexes : gset string
}.

(** A query object [{ field: value, ... }].  As in MongoDB, the condition
    [{ field: null }] selects the documents whose field holds null and
    those that have no such field; any other value selects by
    equality. *)
Definition query := list (string * bson).

Definition field_matches (d : document) (c : string * bson) : bool :=
  match c.2 with
  | BNull => bool_decide (d !! c.1 = None ∨ d !! c.1 = Some BNull)
  | v => bool_decide (d !! c.1 = Some v)
  end.

Definition matches (q : query) (d : document) : bool :=
  forallb (field_matches d) q.

(** An update object.  The bootstrap only uses [$unset], whose operand
    lists the fields to remove (the values given are ignored). *)
Inductive update :=
| Unset (fields : list (string * bson)).

Definition apply_update (u : update) (d : document) : document :=
  match u with
  | Unset fields => foldr (λ f acc, delete f.1 acc) d fields
  end.

Definition update_docs (q : query) (u : update) (ds : list document)
  : list document :=
  (λ d, if matches q d then apply_update u d else d) <$> ds.

(** The connected mongoose instance and the driver client under it. *)
Inductive mongoose := Mongoose (id : nat).
Inductive client := MongoClient (id : nat).

#[global] Instance mongoose_eq_dec : EqDecision mongoose.
Proof. solve_decision. Defined.
#[global] Instance client_eq_dec : EqDecision client.
Proof. solve_decision. Defined.

(** [m.connection.getClient()] *)
Definition getClient (m : mongoose) : client :=
  match m with Mongoose id => MongoClient id end.

(** The database calls made, in order. *)
Inductive op :=
| OpModel (name : string)
| OpUpdateMany (q : query) (u : update)
| OpDropIndex (name : string)
| OpSyncIndexes.

(** What the callbacks act on: the [User] model, the console, and the
    record of database calls. *)
Record world := mkWorld {
  users : user_model;
  console : list log_entry;
  calls : list op
}.

(** Failures that come from outside the model (network, permissions, a
    schema that was never registered): for each primitive, the error it
    raises in this run, if any. *)
Record faults := mkFaults {
  model_fault : option Error;
  updateMany_fault : option Error;
  dropIndex_fault : option Error;
  syncIndexes_fault : option Error
}.

Definition no_faults : faults :=
  {| model_fault := None; updateMany_fault := None;
     dropIndex_fault := None; syncIndexes_fault := None |}.

(** *** State and exceptions *)

Inductive outcome (A : Type) :=
| Val (a : A)
| Throw (e : Error).
Arguments Val {A} a.
Arguments Throw {A} e.

Definition M (A : Type) : Type := world → outcome A * world.

Definition ret {A} (a : A) : M A := λ w, (Val a, w).

Definition throw {A} (e : Error) : M A := λ w, (Throw e, w).

Definition bind {A B} (m : M A) (k : A → M B) : M B :=
  λ w, match m w with
       | (Val a, w') => k a w'
       | (Throw e, w') => (Throw e, w')
       end.

(** [try { m } catch (err) { h err }]; also [p.catch(h)] under an
    [await]. *)
Definition try_catch {A} (m : M A) (h : Error → M A) : M A :=
  λ w, match m w with
       | (Val a, w') => (Val a, w')
       | (Throw e, w') => h e w'
       end.

Definition console_log (l : log_entry) : M unit :=
  λ w, (Val tt, {| users := users w; console := console w ++ [l];
                   calls := calls w |}).

Definition record (o : op) : M unit :=
  λ w, (Val tt, {| users := users w; console := console w;
                   calls := calls w ++ [o] |}).

Definition set_users (u : user_model) : M unit :=
  λ w, (Val tt, {| users := u; console := console w; calls := calls w |}).

Definition get_users : M user_model := λ w, (Val (users w), w).

Definition raise_fault (f : option Error) : M unit :=
  match f with
  | Some e => throw e
  | None => ret tt
  end.

End Mongo.

Declare Scope mongo_scope.
Delimit Scope mongo_scope with mongo.
Notation "'let*' x ':=' m 'in' k" := (Mongo.bind m (λ x, k))
  (at level 10, x name, m at level 100, k at level 200) : mongo_scope.
Notation "m ';;' k" := (Mongo.bind m (λ _, k))
  (at level 100, k at level 200, right associativity) : mongo_scope.

Module MongoOps.
Import Js Mongo.
Local Open Scope mongo_scope.

(** [m.model(name)] *)
Definition model (name : string) (fl : faults) : M unit :=
  record (OpModel name) ;;
  raise_fault (model_fault fl).

(** [User.updateMany(q, u)] *)
Definition updateMany (q : query) (u : update) (fl : faults) : M unit :=
  record (OpUpdateMany q u) ;;
  raise_fault (updateMany_fault fl) ;;
  let* um := get_users in
  set_users {| docs := update_docs q u (docs um);
               indexes := indexes um;
               schemaIndexes := schemaIndexes um |}.

(** [User.collection.dropIndex(name)]: rejects when the collection has
    no index of that name. *)
Definition dropIndex (name : string) (fl : faults) : M unit :=
  record (OpDropIndex name) ;;
  raise_fault (dropIndex_fault fl) ;;
  let* um := get_users in
  if bool_decide (name ∈ indexes um)
  then set_users {| docs := docs um;
                    indexes := indexes um ∖ {[name]};
                    schemaIndexes := schemaIndexes um |}
  else throw (new_Error ("index not found with name [" +:+ name +:+ "]")).

(** [User.syncIndexes()]: afterwards the collection has the default
    [_id_] index and the indexes of the schema.  Only the effect of a call
    that succeeds is described: a call that fails is taken to change
    nothing, where the real one may already have dropped or built some
    indexes, so nothing is stated below about the indexes after a failed
    [syncIndexes]. *)
Definition syncIndexes (fl : faults) : M unit :=
  record OpSyncIndexes ;;
  raise_fault (syncIndexes_fault fl) ;;
  let* um := get_users in
  set_users {| docs := docs um;
               indexes := {["_id_"]} ∪ schemaIndexes um;
               schemaIndexes := schemaIndexes um |}.

End MongoOps.

(** A promise, as far as its state goes. *)
Inductive promise (A : Type) :=
| Pending
| Fulfilled (a : A)
| Rejected (e : Js.Error).
Arguments Pending {A}.
Arguments Fulfilled {A} a.
Arguments Rejected {A} e.

(** How one [mongoose.connect] attempt ends. *)
Inductive connect_result :=
| ConnectOk (m : Mongo.mongoose)
| ConnectError (e : Js.Error).

(* ===================================================================== *)
(** ** Classic variant: the long-running server                           *)
(* ===================================================================== *)

Module Classic.
Import Js Mongo MongoOps Session.
Local Open Scope mongo_scope.

(** The [.then] callback of [mongoose.connect]: index maintenance under
    one [try]/[catch], then the driver client. *)
Definition onConnected (fl : faults) (m : mongoose) : M client :=
  console_log (Log "✅ MongoDB connected successfully") ;;
  try_catch
    (model "User" fl ;;
     updateMany [("supabaseUserId", BNull)]
                (Unset [("supabaseUserId", BString "")]) fl ;;
     console_log (Log "🧹 Cleaned up literal null values in users collection") ;;
     try_catch (dropIndex "supabaseUserId_1" fl)
               (λ _, console_log
                       (Log "ℹ️ Old index not found or already updated.")) ;;
     syncIndexes fl ;;
     console_log (Log "✅ Database indexes synchronized (Partial Index active)"))
    (λ err, console_log
              (LogWith "⚠️ Index maintenance skipped:" (message err))) ;;
  ret (getClient m).

(** The options handed to [session(...)], once, at module load. *)
Definition sessionOptions (e : env) : options :=
  {| name := "startup.sid";
     secret := Some (or_string (e !! "SESSION_SECRET") "secret_fallback_key");
     resave := false;
     saveUninitialized := false;
     store := {| connection := ClientPromise;
                 collectionName := "sessions";
                 ttl := 14 * 24 * 60 * 60;
                 autoRemove := Some "native" |};
     cookie := {| httpOnly := true;
                  secure := strict_eq (e !! "NODE_ENV") "production";
                  sameSite := if strict_eq (e !! "NODE_ENV") "production"
                              then "none" else "lax";
                  maxAge := 1000 * 60 * 60 * 24 |} |}.

(** The global error handler. *)
Definition errorHandler (err : Error) (out : list log_entry) (r : res)
  : list log_entry * res :=
  (out ++ [LogWith "❌ Server Error:"
             (if truthy_string (stack err) then stack err else message err)],
   res_json {| success := false;
               body_message := or_string (message err) "Internal Server Error" |}
     (res_status (or_number (status err) 500) r)).

(** The body of the health check. *)
Record health := mkHealth {
  h_code : Z;
  h_status : string;
  h_message : string;
  h_loggedIn : bool;
  h_environment : string
}.

(** [GET /] for a request that carries the user [user] (resolved by the
    session and passport middleware; [None] without a session). *)
Definition healthCheck (e : env) (user : option string) : health :=
  {| h_code := 200;
     h_status := "OK";
     h_message := "🚀 Backend running";
     h_loggedIn := bool_decide (is_Some user);
     h_environment := or_string (e !! "NODE_ENV") "development" |}.

(** The process: the module's one promise, the counters of the calls made
    at load, and what the event loop has done since.  The console of
    [world] holds the lines the connection bootstrap writes, not those of
    the rest of the program (the [app.listen] callback, the error
    handler). *)
Record state := mkState {
  clientPromise : promise client;
  connects : nat;                      (* calls of mongoose.connect       *)
  sessions : list options;             (* calls of session(...) with its
                                          MongoStore.create               *)
  listening : bool;                    (* app.listen was called           *)
  exited : option Z;                   (* process.exit(code) was called   *)
  responses : list (nat * health);     (* health checks answered          *)
  uses : list (nat * client);          (* clients handed to the store     *)
  world : Mongo.world
}.

(** Evaluating the module: [mongoose.connect] is called and its promise
    chain stored, the middleware is registered with one session store on
    [clientPromise], and [app.listen] is called.  Nothing here waits for
    the promise. *)
Definition load (e : env) (w : Mongo.world) : state :=
  {| clientPromise := Pending;
     connects := 1;
     sessions := [sessionOptions e];
     listening := true;
     exited := None;
     responses := [];
     uses := [];
     world := w |}.

(** The turns of the event loop after load.  A [GET /] that carries no
    session cookie goes through the parsers, the CORS check (no Origin
    header), the session middleware (which, with [saveUninitialized:
    false], does not touch its store for such a request) and passport, and
    reaches the health check: its answer does not wait for
    [clientPromise]. *)
Inductive label :=
| Settle (r : connect_result) (fl : faults)
    (* the connect attempt ends; the [.then] / [.catch] chain runs *)
| Request (req : nat)
    (* a [GET /] without session cookie reaches the listener *)
| StoreUse (u : nat).
    (* the session store takes the client out of [clientPromise] *)

(** The [.catch] callback: log and [process.exit(1)]. *)
Definition onRejected (err : Error) (s : state) (w : Mongo.world) : state :=
  {| clientPromise := clientPromise s;
     connects := connects s;
     sessions := sessions s;
     listening := listening s;
     exited := Some 1;
     responses := responses s;
     uses := uses s;
     world := (console_log
                 (LogWith "❌ MongoDB connection error:" (message err)) w).2 |}.

Definition onFulfilled (c : client) (s : state) (w : Mongo.world) : state :=
  {| clientPromise := Fulfilled c;
     connects := connects s;
     sessions := sessions s;
     listening := listening s;
     exited := exited s;
     responses := responses s;
     uses := uses s;
     world := w |}.

(** One turn; [None] when the turn cannot happen in [s] (nothing runs in
    a process that has exited). *)
Definition exec (e : env) (l : label) (s : state) : option state :=
  match exited s with
  | Some _ => None
  | None =>
    match l with
    | Settle r fl =>
      match clientPromise s with
      | Pending =>
        match r with
        | ConnectOk m =>
          match onConnected fl m (world s) with
          | (Val c, w') => Some (onFulfilled c s w')
          | (Throw err, w') => Some (onRejected err s w')
          end
        | ConnectError err => Some (onRejected err s (world s))
        end
      | _ => None
      end
    | Request req =>
      if listening s
      then Some {| clientPromise := clientPromise s;
                   connects := connects s;
                   sessions := sessions s;
                   listening := listening s;
                   exited := exited s;
                   responses := responses s ++ [(req, healthCheck e None)];
                   uses := uses s;
                   world := world s |}
      else None
    | StoreUse u =>
      match clientPromise s with
      | Fulfilled c =>
        Some {| clientPromise := clientPromise s;
                connects := connects s;
                sessions := sessions s;
                listening := listening s;
                exited := exited s;
                responses := responses s;
                uses := uses s ++ [(u, c)];
                world := world s |}
      | _ => None
      end
    end
  end.

Fixpoint run (e : env) (tr : list label) (s : state) : option state :=
  match tr with
  | [] => Some s
  | l :: tr' =>
    match exec e l s with
    | Some s' => run e tr' s'
    | None => None
    end
  end.

(** The connect attempt of a trace failed. *)
Definition connect_failed (tr : list label) : Prop :=
  ∃ err fl, Settle (ConnectError err) fl ∈ tr.

End Classic.

(* ===================================================================== *)
(** ** Serverless variant: the exported app with a cached connection      *)
(* ===================================================================== *)

Module Serverless.
Import Js Mongo MongoOps Session.
Local Open Scope mongo_scope.

(** The [.then] callback of [mongoose.connect] inside [connectDB]. *)
Definition onConnected (fl : faults) (m : mongoose) : M mongoose :=
  console_log (Log "✅ MongoDB connected") ;;
  try_catch
    (model "User" fl ;;
     updateMany [("supabaseUserId", BNull)]
                (Unset [("supabaseUserId", BString "")]) fl ;;
     try_catch (dropIndex "supabaseUserId_1" fl)
               (λ _, console_log (Log "ℹ️ Index already clean")) ;;
     syncIndexes fl ;;
     console_log (Log "✅ Indexes synced"))
    (λ err, console_log (LogWith "⚠️ Index sync skipped:" (message err))) ;;
  ret m.

(** The options handed to [session(...)] inside the per-request
    middleware. *)
Definition sessionOptions (e : env) : options :=
  {| name := "startup.sid";
     secret := e !! "SESSION_SECRET";
     resave := false;
     saveUninitialized := false;
     store := {| connection := MongoUrl (e !! "MONGO_URI");
                 collectionName := "sessions";
                 ttl := 14 * 24 * 60 * 60;
                 autoRemove := None |};
     cookie := {| httpOnly := true;
                  secure := true;
                  sameSite := "none";
                  maxAge := 1000 * 60 * 60 * 24 |} |}.

(** The error handler. *)
Definition errorHandler (err : Error) (out : list log_entry) (r : res)
  : list log_entry * res :=
  (out ++ [LogWith "❌ Error:" (message err)],
   res_json {| success := false;
               body_message := or_string (message err) "Internal Server Error" |}
     (res_status 500 r)).

(** The two places that call [connectDB], by request. *)
Inductive site :=
| SessionMiddleware (req : nat)
| HealthCheck (req : nat).

#[global] Instance site_eq_dec : EqDecision site.
Proof. solve_decision. Defined.

(** How a call of [connectDB] ends. *)
Inductive returned :=
| Returned (m : mongoose)
| Threw (err : Error).

(** The process: [global.mongoose] (the object [cached]), the promise
    objects [connectDB] has created, and the calls in flight.  The console
    of [world] holds the lines the connection bootstrap writes, not those
    of the rest of the program (the error handler). *)
Record state := mkState {
  cached_conn : option mongoose;        (* cached.conn, null at first     *)
  cached_promise : option nat;          (* cached.promise: a reference
                                           into [promises]                *)
  promises : list (promise mongoose);
  connects : nat;                       (* calls of mongoose.connect      *)
  awaiting : list (site * nat);         (* calls suspended at the await,
                                           each with the promise awaited  *)
  finished : list (site * returned);    (* calls that have ended          *)
  sessions : list (nat * options);      (* calls of session(...) with its
                                           MongoStore.create, by request  *)
  world : Mongo.world
}.

(** A fresh process: [cached = { conn: null, promise: null }]. *)
Definition init (w : Mongo.world) : state :=
  {| cached_conn := None; cached_promise := None; promises := [];
     connects := 0; awaiting := []; finished := []; sessions := [];
     world := w |}.

(** The turns of the event loop. *)
Inductive label :=
| Call (k : site)
    (* [connectDB()] is called at [k] and runs up to its return or its
       await *)
| Settle (p : nat) (r : connect_result) (fl : faults)
    (* the connect attempt behind promise [p] ends and the [.then]
       callback runs *)
| Resume (k : site).
    (* the await of the call at [k] continues *)

(** A call of [connectDB] ends with [r]; the caller, which awaits it,
    goes on: the session middleware builds [session(...)] with a new
    [MongoStore] when the call returned, and rejects when it threw. *)
Definition finish (e : env) (k : site) (r : returned) (s : state) : state :=
  {| cached_conn := cached_conn s;
     cached_promise := cached_promise s;
     promises := promises s;
     connects := connects s;
     awaiting := awaiting s;
     finished := finished s ++ [(k, r)];
     sessions := match k, r with
                 | SessionMiddleware req, Returned _ =>
                     sessions s ++ [(req, sessionOptions e)]
                 | _, _ => sessions s
                 end;
     world := world s |}.

(** [cached.promise = mongoose.connect(...).then(...)] *)
Definition start_connect (s : state) : state :=
  {| cached_conn := cached_conn s;
     cached_promise := Some (length (promises s));
     promises := promises s ++ [Pending];
     connects := S (connects s);
     awaiting := awaiting s;
     finished := finished s;
     sessions := sessions s;
     world := world s |}.

Definition suspend (k : site) (p : nat) (s : state) : state :=
  {| cached_conn := cached_conn s;
     cached_promise := cached_promise s;
     promises := promises s;
     connects := connects s;
     awaiting := awaiting s ++ [(k, p)];
     finished := finished s;
     sessions := sessions s;
     world := world s |}.

(** [cached.conn = m] on the way out of the await. *)
Definition set_conn (m : mongoose) (s : state) : state :=
  {| cached_conn := Some m;
     cached_promise := cached_promise s;
     promises := promises s;
     connects := connects s;
     awaiting := awaiting s;
     finished := finished s;
     sessions := sessions s;
     world := world s |}.

Definition settle (p : nat) (v : promise mongoose) (w : Mongo.world)
           (s : state) : state :=
  {| cached_conn := cached_conn s;
     cached_promise := cached_promise s;
     promises := <[p := v]> (promises s);
     connects := connects s;
     awaiting := awaiting s;
     finished := finished s;
     sessions := sessions s;
     world := w |}.

(** The first suspended call at [k]: the promise it awaits and the other
    suspended calls. *)
Fixpoint take (k : site) (l : list (site * nat))
  : option (nat * list (site * nat)) :=
  match l with
  | [] => None
  | (k', p) :: l' =>
    if decide (k' = k) then Some (p, l')
    else match take k l' with
         | Some (q, rest) => Some (q, (k', p) :: rest)
         | None => None
         end
  end.

Definition set_awaiting (l : list (site * nat)) (s : state) : state :=
  {| cached_conn := cached_conn s;
     cached_promise := cached_promise s;
     promises := promises s;
     connects := connects s;
     awaiting := l;
     finished := finished s;
     sessions := sessions s;
     world := world s |}.

(** [connectDB()], called at [k], up to its first [return] or [await]:
    the cached connection if there is one; otherwise the cached promise is
    awaited, after it was created if there was none. *)
Definition connectDB (e : env) (k : site) (s : state) : state :=
  match cached_conn s with
  | Some m => finish e k (Returned m) s
  | None =>
    match cached_promise s with
    | Some p => suspend k p s
    | None => suspend k (length (promises s)) (start_connect s)
    end
  end.

(** The rest of [connectDB] at [k] after its [await] of promise [p]:
    [cached.conn = <value>; return cached.conn], or the rejection thrown.
    [rest] are the calls still suspended. *)
Definition connectDB_resume (e : env) (k : site) (p : nat)
           (rest : list (site * nat)) (s : state) : option state :=
  match promises s !! p with
  | Some (Fulfilled m) =>
      Some (finish e k (Returned m) (set_conn m (set_awaiting rest s)))
  | Some (Rejected err) =>
      Some (finish e k (Threw err) (set_awaiting rest s))
  | _ => None
  end.

(** One turn; [None] when the turn cannot happen in [s]. *)
Definition exec (e : env) (l : label) (s : state) : option state :=
  match l with
  | Call k => Some (connectDB e k s)
  | Settle p r fl =>
    match promises s !! p with
    | Some Pending =>
      match r with
      | ConnectOk m =>
        match onConnected fl m (world s) with
        | (Val m', w') => Some (settle p (Fulfilled m') w' s)
        | (Throw err, w') => Some (settle p (Rejected err) w' s)
        end
      | ConnectError err => Some (settle p (Rejected err) (world s) s)
      end
    | _ => None
    end
  | Resume k =>
    match take k (awaiting s) with
    | Some (p, rest) => connectDB_resume e k p rest s
    | None => None
    end
  end.

Fixpoint run (e : env) (tr : list label) (s : state) : option state :=
  match tr with
  | [] => Some s
  | l :: tr' =>
    match exec e l s with
    | Some s' => run e tr' s'
    | None => None
    end
  end.

(** The requests whose session middleware got a connection back. *)
Definition session_returns (s : state) : list nat :=
  omap (λ kr, match kr with
              | (SessionMiddleware req, Returned _) => Some req
              | _ => None
              end) (finished s).

End Serverless.

(* ===================================================================== *)
(** ** Vocabulary of the statements                                       *)
(* ===================================================================== *)

(** A computation that cannot end in an exception. *)
Definition total {A} (m : Mongo.M A) : Prop :=
  ∀ w, ∃ a w', m w = (Mongo.Val a, w').

(** The error that reaches the outer [catch] of the index maintenance:
    that of the first step to fail among [model], [updateMany] and
    [syncIndexes] ([dropIndex] has a [catch] of its own). *)
Definition outer_error (fl : Mongo.faults) : option Js.Error :=
  match Mongo.model_fault fl with
  | Some err => Some err
  | None =>
    match Mongo.updateMany_fault fl with
    | Some err => Some err
    | None => Mongo.syncIndexes_fault fl
    end
  end.

(** [dropIndex] rejects: for an outside reason, or because the collection
    has no index named [supabaseUserId_1]. *)
Definition dropIndex_fails (fl : Mongo.faults) (w : Mongo.world) : Prop :=
  Mongo.dropIndex_fault fl ≠ None
  ∨ "supabaseUserId_1" ∉ Mongo.indexes (Mongo.users w).

(** What holds of the serverless process in every state it can reach:
    at most one promise was ever created, [cached.promise] refers to it,
    [cached.conn] and every value returned are what that promise was
    fulfilled with, and one session middleware was built per call of the
    session middleware that got a connection back. *)
Record serverless_inv (e : Js.env) (s : Serverless.state) : Prop :=
  mkServerlessInv {
    inv_connects : Serverless.connects s = length (Serverless.promises s);
    inv_once : (length (Serverless.promises s) ≤ 1)%nat;
    inv_null : Serverless.cached_promise s = None → Serverless.promises s = [];
    inv_ref : ∀ p, Serverless.cached_promise s = Some p →
                   (p < length (Serverless.promises s))%nat;
    inv_conn : ∀ m, Serverless.cached_conn s = Some m →
                    Serverless.promises s !! 0%nat = Some (Fulfilled m);
    inv_finished : ∀ k m,
        (k, Serverless.Returned m) ∈ Serverless.finished s →
        Serverless.cached_conn s = Some m;
    inv_awaiting : ∀ k p,
        (k, p) ∈ Serverless.awaiting s →
        (p < length (Serverless.promises s))%nat;
    inv_sessions :
        Serverless.sessions s
        = (λ req, (req, Serverless.sessionOptions e)) <$>
            Serverless.session_returns s
  }.

(** What holds of the classic process in every state it can reach. *)
Record classic_inv (e : Js.env) (s : Classic.state) : Prop :=
  mkClassicInv {
    cinv_connects : Classic.connects s = 1%nat;
    cinv_sessions : Classic.sessions s = [Classic.sessionOptions e];
    cinv_listening : Classic.listening s = true;
    cinv_uses : ∀ u c, (u, c) ∈ Classic.uses s →
                       Classic.clientPromise s = Fulfilled c;
    cinv_exit : Classic.exited s = None ∨ Classic.exited s = Some 1
  }.

(** *** Sample data *)

(** Three users: one whose identity field holds null, one with an
    identity, one without the field. *)
Definition sample_null_user : Mongo.document :=
  {[ "email" := Mongo.BString "ada@example.org";
     "supabaseUserId" := Mongo.BNull ]}.

Definition sample_known_user : Mongo.document :=
  {[ "email" := Mongo.BString "bob@example.org";
     "supabaseUserId" := Mongo.BString "5f0c" ]}.

Definition sample_plain_user : Mongo.document :=
  {[ "email" := Mongo.BString "eve@example.org" ]}.

(** A database that never had the legacy index. *)
Definition sample_world : Mongo.world :=
  {| Mongo.users :=
       {| Mongo.docs := [sample_null_user; sample_known_user; sample_plain_user];
          Mongo.indexes := {["_id_"]};
          Mongo.schemaIndexes := {["supabaseUserId_1"]} |};
     Mongo.console := [];
     Mongo.calls := [] |}.

Definition sample_mongoose : Mongo.mongoose := Mongo.Mongoose 0.

(** The error of a server that cannot be reached. *)
Definition sample_connect_error : Js.Error :=
  {| Js.status := None;
     Js.message := Some "connect ECONNREFUSED 127.0.0.1:27017";
     Js.stack := None |}.

(* ===================================================================== *)
(** ** The rest of the gateway                                            *)
(* ===================================================================== *)

(** The query and the update object of the first maintenance step. *)
Definition null_identity : Mongo.query := [("supabaseUserId", Mongo.BNull)].

Definition unset_identity : Mongo.update :=
  Mongo.Unset [("supabaseUserId", Mongo.BString "")].

(** What the first maintenance step does to one document. *)
Definition unset_null (d : Mongo.document) : Mongo.document :=
  if Mongo.matches null_identity d
  then Mongo.apply_update unset_identity d else d.

(** The database calls of a maintenance in which no step fails, in the
    order the callback makes them. *)
Definition maintenance_calls : list Mongo.op :=
  [ Mongo.OpModel "User";
    Mongo.OpUpdateMany null_identity unset_identity;
    Mongo.OpDropIndex "supabaseUserId_1";
    Mongo.OpSyncIndexes ].

(** How many of these calls a maintenance makes: [model] alone when it
    throws, [updateMany] too when that is refused, and all four otherwise
    (a failing [dropIndex] does not stop [syncIndexes]). *)
Definition steps_reached (fl : Mongo.faults) : nat :=
  match Mongo.model_fault fl with
  | Some _ => 1
  | None =>
    match Mongo.updateMany_fault fl with
    | Some _ => 2
    | None => 4
    end
  end.

(** No step that reaches the outer [catch] fails ([dropIndex] may). *)
Definition steps_succeed (fl : Mongo.faults) : Prop :=
  Mongo.model_fault fl = None
  ∧ Mongo.updateMany_fault fl = None
  ∧ Mongo.syncIndexes_fault fl = None.



(** What a call that awaits a promise gets once the promise is settled. *)
Definition outcome_of (v : promise Mongo.mongoose)
  : option Serverless.returned :=
  match v with
  | Pending => None
  | Fulfilled m => Some (Serverless.Returned m)
  | Rejected err => Some (Serverless.Threw err)
  end.

(** How the calls that have ended and the console and database relate to
    the one promise of a serverless process that started in world [w0]:
    a call that threw, threw the error the promise was rejected with, and
    the world of the machine is the one of the start until the [.then]
    callback has run, which it does for a fulfilled promise only. *)
Record serverless_outcome_inv (w0 : Mongo.world) (s : Serverless.state)
  : Prop := mkServerlessOutcomeInv {
    out_threw : ∀ k err,
        (k, Serverless.Threw err) ∈ Serverless.finished s →
        Serverless.promises s !! 0%nat = Some (Rejected err);
    out_world :
        match Serverless.promises s !! 0%nat with
        | Some (Fulfilled m) =>
            ∃ fl, Serverless.world s = (Serverless.onConnected fl m w0).2
        | _ => Serverless.world s = w0
        end
  }.

(** The serverless module evaluated again in a process that is still warm:
    [let cached = global.mongoose; if (!cached) cached = global.mongoose =
    { conn: null, promise: null }].  [global.mongoose] is undefined until
    the module is evaluated for the first time. *)
Module Warm.

Inductive label :=
| Load                            (* the module is evaluated *)
| Event (l : Serverless.label).   (* a turn of the loaded module *)

Definition load (w : Mongo.world) (g : option Serverless.state)
  : Serverless.state :=
  match g with
  | Some cached => cached
  | None => Serverless.init w
  end.

(** One turn on [global.mongoose]; [None] when the turn cannot happen (no
    module is loaded yet). *)
Definition exec (e : Js.env) (w : Mongo.world) (l : label)
           (g : option Serverless.state) : option (option Serverless.state) :=
  match l with
  | Load => Some (Some (load w g))
  | Event l' =>
    match g with
    | Some s => Some <$> Serverless.exec e l' s
    | None => None
    end
  end.

(** The turns of a trace, without the evaluations of the module. *)
Definition events_of (tr : list label) : list Serverless.label :=
  omap (λ l, match l with
             | Load => None
             | Event l' => Some l'
             end) tr.

Fixpoint run (e : Js.env) (w : Mongo.world) (tr : list label)
         (g : option Serverless.state) : option (option Serverless.state) :=
  match tr with
  | [] => Some g
  | l :: tr' =>
    match exec e w l g with
    | Some g' => run e w tr' g'
    | None => None
    end
  end.

End Warm.

(** The health check of the serverless variant: [await connectDB()], then
    the answer. *)
Module ServerlessHealth.

Definition healthCheck (e : Js.env) (user : option string) : Classic.health :=
  {| Classic.h_code := 200;
     Classic.h_status := "OK";
     Classic.h_message := "🚀 Backend running on Vercel";
     Classic.h_loggedIn := bool_decide (is_Some user);
     Classic.h_environment := Js.or_string (e !! "NODE_ENV") "development" |}.

(** The health checks answered so far: those whose [connectDB] returned.
    [user_of] gives the user passport resolved for a request. *)
Definition answers (e : Js.env) (user_of : nat → option string)
           (s : Serverless.state) : list (nat * Classic.health) :=
  omap (λ kr, match kr with
              | (Serverless.HealthCheck req, Serverless.Returned _) =>
                  Some (req, healthCheck e (user_of req))
              | _ => None
              end) (Serverless.finished s).

End ServerlessHealth.

(** The health checks a classic trace carries, in order. *)
Definition requests_of (tr : list Classic.label) : list nat :=
  omap (λ l, match l with
             | Classic.Request req => Some req
             | _ => None
             end) tr.


(* ===================================================================== *)
(** ** Configuration: cookies, secrets, CORS, error responses             *)
(* ===================================================================== *)

Section Configuration.
Import Js.

Lemma strict_eq_true (v : option string) (lit : string) :
  strict_eq v lit = true ↔ v = Some lit.
Proof. unfold strict_eq. apply bool_decide_eq_true. Qed.

Lemma includes_true (arr : list (option string)) (x : option string) :
  includes arr x = true ↔ x ∈ arr.
Proof. unfold includes. apply bool_decide_eq_true. Qed.

Lemma truthy_string_false (v : option string) :
  truthy_string v = false ↔ v = None ∨ v = Some "".
Proof.
  destruct v as [s|]; simpl.
  - rewrite bool_decide_eq_false. split.
    + intros H. right. f_equal. by destruct (decide (s = "")).
    + intros [?|[= ->]]; [done | auto].
  - naive_solver.
Qed.

(** The classic handler answers once, under the error's status when that
    is a non-zero number and under 500 otherwise. *)
Lemma classic_errorHandler_sent (err : Error) (out : list log_entry) :
  sent (Classic.errorHandler err out fresh_res).2 =
    [(or_number (status err) 500,
      {| success := false;
         body_message := or_string (message err) "Internal Server Error" |})].
Proof. reflexivity. Qed.

(** The serverless handler answers once, always under 500. *)
Lemma serverless_errorHandler_sent (err : Error) (out : list log_entry) :
  sent (Serverless.errorHandler err out fresh_res).2 =
    [(500,
      {| success := false;
         body_message := or_string (message err) "Internal Server Error" |})].
Proof. reflexivity. Qed.

End Configuration.

(** C5: the cookie policy per deployment mode.  Classic: [secure] is true
    exactly in production, [sameSite] is "none" in production and "lax"
    otherwise, the store keeps sessions for 14 days (in seconds) and the
    cookie lives 1 day (in milliseconds).  Serverless: [secure] is always
    true and [sameSite] always "none", whatever the environment. *)
Theorem session_cookie_policy (e : Js.env) :
  let production := bool_decide (e !! "NODE_ENV" = Some "production") in
  let classic := Classic.sessionOptions e in
  let serverless := Serverless.sessionOptions e in
  (Session.secure (Session.cookie classic) = true
   ↔ e !! "NODE_ENV" = Some "production")
  ∧ Session.sameSite (Session.cookie classic)
    = (if production then "none" else "lax")
  ∧ Session.ttl (Session.store classic) = 14 * 86400
  ∧ Session.maxAge (Session.cookie classic) = 1 * 86400 * 1000
  ∧ Session.secure (Session.cookie serverless) = true
  ∧ Session.sameSite (Session.cookie serverless) = "none".
Proof.
  simpl. split; [apply strict_eq_true|]. by repeat split.
Qed.

(** C10: with [SESSION_SECRET] unset the classic variant signs sessions
    with the constant "secret_fallback_key"; the serverless variant hands
    the unset value to the session middleware as it is. *)
Theorem session_secret_fallback (e : Js.env) :
  e !! "SESSION_SECRET" = None →
  Session.secret (Classic.sessionOptions e) = Some "secret_fallback_key"
  ∧ Session.secret (Serverless.sessionOptions e) = None.
Proof.
  intros Hunset. unfold Classic.sessionOptions, Serverless.sessionOptions.
  simpl. by rewrite Hunset.
Qed.

Lemma session_secret_fallback_witness :
  Session.secret (Classic.sessionOptions ∅) = Some "secret_fallback_key"
  ∧ Session.secret (Serverless.sessionOptions ∅) = None.
Proof. apply (session_secret_fallback ∅). reflexivity. Defined.

(** C6, at an error that carries a status: the serverless handler answers
    404-errors under 500, where the classic handler answers them under
    404. *)
Theorem serverless_errorHandler_drops_status :
  let err := {| Js.status := Some 404; Js.message := Some "Not Found";
                Js.stack := None |} in
  Js.sent (Serverless.errorHandler err [] Js.fresh_res).2
    = [(500, {| Js.success := false; Js.body_message := "Not Found" |})]
  ∧ Js.sent (Classic.errorHandler err [] Js.fresh_res).2
    = [(404, {| Js.success := false; Js.body_message := "Not Found" |})].
Proof. split; reflexivity. Qed.

(** C7, as stated, fails at an Origin header with an empty value: the
    header is there, its value is not in the allow-list, and the request is
    accepted. *)
Lemma cors_empty_origin_allowed :
  Some "" ≠ None
  ∧ (Some "" ∉ Cors.allowedOrigins ∅)
  ∧ Cors.origin ∅ (Some "") = Cors.Allow.
Proof.
  split; [done|]. split; [|reflexivity].
  apply (bool_decide_eq_false_1 _). reflexivity.
Qed.

(** C7, amended: a request without Origin header or with an empty one is
    accepted; a request whose Origin is in the allow-list is accepted; for
    every other Origin the callback gets the error "Not allowed by CORS",
    which either error handler answers once, under status 500, with
    [success: false]. *)
Theorem cors_origin_policy (e : Js.env) (o : option string) :
  (o = None ∨ o = Some "" → Cors.origin e o = Cors.Allow)
  ∧ (o ∈ Cors.allowedOrigins e → Cors.origin e o = Cors.Allow)
  ∧ (o ≠ None → o ≠ Some "" → o ∉ Cors.allowedOrigins e →
     let err := Js.new_Error "Not allowed by CORS" in
     let body := {| Js.success := false;
                    Js.body_message := "Not allowed by CORS" |} in
     Cors.origin e o = Cors.Reject err
     ∧ Js.sent (Classic.errorHandler err [] Js.fresh_res).2 = [(500, body)]
     ∧ Js.sent (Serverless.errorHandler err [] Js.fresh_res).2 = [(500, body)]).
Proof.
  unfold Cors.origin. split; [|split].
  - intros H. apply truthy_string_false in H. by rewrite H.
  - intros H. destruct (Js.truthy_string o); [|done]. simpl.
    apply includes_true in H. by rewrite H.
  - intros Hsome Hne Hout. simpl.
    destruct (Js.truthy_string o) eqn:Ht.
    + simpl. destruct (Js.includes (Cors.allowedOrigins e) o) eqn:Hi.
      * apply includes_true in Hi. contradiction.
      * done.
    + apply truthy_string_false in Ht. destruct Ht; contradiction.
Qed.

Lemma cors_origin_policy_witness :
  Cors.origin ∅ None = Cors.Allow
  ∧ Cors.origin ∅ (Some "http://localhost:5173") = Cors.Allow
  ∧ Cors.origin ∅ (Some "http://evil.example")
    = Cors.Reject (Js.new_Error "Not allowed by CORS").
Proof.
  split; [|split].
  - apply (cors_origin_policy ∅ None). by left.
  - apply (cors_origin_policy ∅ (Some "http://localhost:5173")).
    apply (bool_decide_eq_true_1 _). reflexivity.
  - apply (cors_origin_policy ∅ (Some "http://evil.example")); [done|done|].
    apply (bool_decide_eq_false_1 _). reflexivity.
Defined.

(* ===================================================================== *)
(** ** Index maintenance                                                  *)
(* ===================================================================== *)

Section Maintenance.
Import Js Mongo MongoOps.
Local Open Scope mongo_scope.

Lemma total_ret {A} (a : A) : total (ret a).
Proof. intros w. by exists a, w. Qed.

Lemma total_console_log (l : log_entry) : total (console_log l).
Proof. intros w. unfold console_log. eauto. Qed.

Lemma total_bind {A B} (m : M A) (k : A → M B) :
  total m → (∀ a, total (k a)) → total (bind m k).
Proof.
  intros Hm Hk w. unfold bind.
  destruct (Hm w) as (a & w' & ->). apply Hk.
Qed.

(** A handler that cannot throw makes the whole [try]/[catch] safe,
    whatever the body does. *)
Lemma total_try_catch {A} (m : M A) (h : Error → M A) :
  (∀ err, total (h err)) → total (try_catch m h).
Proof.
  intros Hh w. unfold try_catch.
  destruct (m w) as [[a|err] w']; [eauto | apply Hh].
Qed.

Lemma bind_val {A B} (m : M A) (k : A → M B) (w w' : world) (a : A) :
  m w = (Val a, w') → bind m k w = k a w'.
Proof. intros H. unfold bind. by rewrite H. Qed.

Lemma bind_total_fst {A B} (m : M A) (k : A → M B) (w : world) (b : B) :
  total m → (∀ a w', (k a w').1 = Val b) → (bind m k w).1 = Val b.
Proof.
  intros Hm Hk. destruct (Hm w) as (a & w' & Hw).
  rewrite (bind_val _ _ _ _ _ Hw). apply Hk.
Qed.

Lemma classic_onConnected_total (fl : faults) (m : mongoose) :
  total (Classic.onConnected fl m).
Proof.
  unfold Classic.onConnected.
  apply total_bind; [apply total_console_log | intros _].
  apply total_bind; [| intros _; apply total_ret].
  apply total_try_catch. intros err. apply total_console_log.
Qed.

Lemma serverless_onConnected_total (fl : faults) (m : mongoose) :
  total (Serverless.onConnected fl m).
Proof.
  unfold Serverless.onConnected.
  apply total_bind; [apply total_console_log | intros _].
  apply total_bind; [| intros _; apply total_ret].
  apply total_try_catch. intros err. apply total_console_log.
Qed.

(** The callbacks end with the value of their last line. *)
Lemma classic_onConnected_val (fl : faults) (m : mongoose) (w : world) :
  (Classic.onConnected fl m w).1 = Val (getClient m).
Proof.
  unfold Classic.onConnected. apply bind_total_fst; [apply total_console_log|].
  intros _ w1. apply bind_total_fst; [|done].
  apply total_try_catch. intros err. apply total_console_log.
Qed.

Lemma serverless_onConnected_val (fl : faults) (m : mongoose) (w : world) :
  (Serverless.onConnected fl m w).1 = Val m.
Proof.
  unfold Serverless.onConnected. apply bind_total_fst; [apply total_console_log|].
  intros _ w1. apply bind_total_fst; [|done].
  apply total_try_catch. intros err. apply total_console_log.
Qed.

End Maintenance.

Section MaintenanceSteps.
Import Js Mongo MongoOps.

(** Runs a callback on a symbolic world: the faults are split into their
    cases and the monad is computed away. *)
Ltac run_callback fl :=
  destruct fl as [[?|] [?|] [?|] [?|]]; simpl in *; simplify_eq;
  unfold Classic.onConnected, Serverless.onConnected,
    model, updateMany, dropIndex, syncIndexes,
    bind, try_catch, ret, throw, console_log, record, raise_fault,
    get_users, set_users;
  cbn -[update_docs difference union];
  repeat case_bool_decide;
  cbn -[update_docs difference union].

Lemma classic_docs_after (fl : faults) (m : mongoose) (w : world) :
  model_fault fl = None → updateMany_fault fl = None →
  docs (users (Classic.onConnected fl m w).2)
  = update_docs [("supabaseUserId", BNull)]
      (Unset [("supabaseUserId", BString "")]) (docs (users w)).
Proof. intros Hm Hu. run_callback fl; reflexivity. Qed.

Lemma serverless_docs_after (fl : faults) (m : mongoose) (w : world) :
  model_fault fl = None → updateMany_fault fl = None →
  docs (users (Serverless.onConnected fl m w).2)
  = update_docs [("supabaseUserId", BNull)]
      (Unset [("supabaseUserId", BString "")]) (docs (users w)).
Proof. intros Hm Hu. run_callback fl; reflexivity. Qed.

Lemma outer_catch_logs (fl : faults) (m : mongoose) (w : world) (err : Error) :
  outer_error fl = Some err →
  LogWith "⚠️ Index maintenance skipped:" (message err)
    ∈ console (Classic.onConnected fl m w).2
  ∧ LogWith "⚠️ Index sync skipped:" (message err)
    ∈ console (Serverless.onConnected fl m w).2.
Proof.
  unfold outer_error. intros Herr.
  run_callback fl; split; set_solver.
Qed.

Lemma dropIndex_failure_swallowed (fl : faults) (m : mongoose) (w : world) :
  model_fault fl = None → updateMany_fault fl = None →
  dropIndex_fails fl w →
  (Log "ℹ️ Old index not found or already updated."
     ∈ console (Classic.onConnected fl m w).2
   ∧ OpSyncIndexes ∈ calls (Classic.onConnected fl m w).2)
  ∧ (Log "ℹ️ Index already clean"
       ∈ console (Serverless.onConnected fl m w).2
     ∧ OpSyncIndexes ∈ calls (Serverless.onConnected fl m w).2).
Proof.
  unfold dropIndex_fails. intros Hm Hu Hd.
  revert Hd. run_callback fl; intros [Hx|Hx];
    first [ exfalso; apply Hx; done | repeat split; set_solver ].
Qed.

Lemma update_docs_lookup (q : query) (u : update) (ds : list document)
      (i : nat) (d : document) :
  ds !! i = Some d →
  update_docs q u ds !! i = Some (if matches q d then apply_update u d else d).
Proof. intros H. unfold update_docs. by rewrite list_lookup_fmap, H. Qed.

End MaintenanceSteps.

Section MaintenanceAtStartup.
Import Js Mongo MongoOps.

(** A connect attempt that succeeds fulfils [clientPromise], whatever the
    maintenance steps do; the process stays up and listening. *)
Lemma classic_settle_ok (e : env) (fl : faults) (m : mongoose) (w : world) :
  ∃ st, Classic.exec e (Classic.Settle (ConnectOk m) fl) (Classic.load e w)
        = Some st
        ∧ Classic.clientPromise st = Fulfilled (getClient m)
        ∧ Classic.exited st = None
        ∧ Classic.listening st = true.
Proof.
  pose proof (classic_onConnected_val fl m w) as Hv.
  unfold Classic.exec. simpl.
  destruct (Classic.onConnected fl m w) as [o w']. simpl in Hv. subst o.
  eexists. split; [reflexivity|]. by repeat split.
Qed.

(** The same for the call of [connectDB] that started the attempt: it
    returns the connection. *)
Lemma serverless_settle_ok (e : env) (fl : faults) (m : mongoose) (w : world)
      (k : Serverless.site) :
  ∃ st, Serverless.run e
          [Serverless.Call k; Serverless.Settle 0 (ConnectOk m) fl;
           Serverless.Resume k] (Serverless.init w) = Some st
        ∧ Serverless.finished st = [(k, Serverless.Returned m)]
        ∧ Serverless.cached_conn st = Some m.
Proof.
  pose proof (serverless_onConnected_val fl m w) as Hv.
  simpl. destruct (Serverless.onConnected fl m w) as [o w']. simpl in Hv.
  subst o. simpl. rewrite decide_True by done. simpl.
  eexists. split; [reflexivity|]. by split.
Qed.

End MaintenanceAtStartup.

(** C3: no exception of the maintenance steps leaves the [.then] callback:
    in both variants it ends with its value whatever faults the steps meet,
    so the classic process stays up and listening and the serverless call
    of [connectDB] returns.  An error of [model], [updateMany] or
    [syncIndexes] is logged by the outer [catch]; a failing [dropIndex] (the
    index [supabaseUserId_1] does not exist, or any other rejection) is
    logged by its own [catch] and [syncIndexes] is still called. *)
Theorem index_maintenance_contained
        (e : Js.env) (fl : Mongo.faults) (m : Mongo.mongoose) (w : Mongo.world) :
  ((Classic.onConnected fl m w).1 = Mongo.Val (Mongo.getClient m)
   ∧ (Serverless.onConnected fl m w).1 = Mongo.Val m)
  ∧ (∃ st, Classic.exec e (Classic.Settle (ConnectOk m) fl) (Classic.load e w)
           = Some st
           ∧ Classic.clientPromise st = Fulfilled (Mongo.getClient m)
           ∧ Classic.exited st = None
           ∧ Classic.listening st = true)
  ∧ (∀ k, ∃ st, Serverless.run e
                  [Serverless.Call k; Serverless.Settle 0 (ConnectOk m) fl;
                   Serverless.Resume k] (Serverless.init w) = Some st
                ∧ Serverless.finished st = [(k, Serverless.Returned m)]
                ∧ Serverless.cached_conn st = Some m)
  ∧ (∀ err, outer_error fl = Some err →
       Js.LogWith "⚠️ Index maintenance skipped:" (Js.message err)
         ∈ Mongo.console (Classic.onConnected fl m w).2
       ∧ Js.LogWith "⚠️ Index sync skipped:" (Js.message err)
         ∈ Mongo.console (Serverless.onConnected fl m w).2)
  ∧ (Mongo.model_fault fl = None → Mongo.updateMany_fault fl = None →
     dropIndex_fails fl w →
       (Js.Log "ℹ️ Old index not found or already updated."
          ∈ Mongo.console (Classic.onConnected fl m w).2
        ∧ Mongo.OpSyncIndexes ∈ Mongo.calls (Classic.onConnected fl m w).2)
       ∧ (Js.Log "ℹ️ Index already clean"
            ∈ Mongo.console (Serverless.onConnected fl m w).2
          ∧ Mongo.OpSyncIndexes
            ∈ Mongo.calls (Serverless.onConnected fl m w).2)).
Proof.
  split; [split|split; [|split; [|split]]].
  - apply classic_onConnected_val.
  - apply serverless_onConnected_val.
  - apply classic_settle_ok.
  - intros k. apply serverless_settle_ok.
  - intros err. apply outer_catch_logs.
  - apply dropIndex_failure_swallowed.
Qed.

(** C4: where the first step runs (the model is registered and
    [updateMany] is not refused), a document whose [supabaseUserId] holds
    null comes out of the migration without that field and otherwise as it
    was; a document whose [supabaseUserId] holds anything else is left as
    it was.  This holds in both variants, whatever the later steps do. *)
Theorem null_identity_unset
        (fl : Mongo.faults) (m : Mongo.mongoose) (w : Mongo.world)
        (i : nat) (d : Mongo.document) :
  Mongo.model_fault fl = None → Mongo.updateMany_fault fl = None →
  Mongo.docs (Mongo.users w) !! i = Some d →
  let classic := Mongo.docs (Mongo.users (Classic.onConnected fl m w).2) in
  let serverless := Mongo.docs (Mongo.users (Serverless.onConnected fl m w).2) in
  (d !! "supabaseUserId" = Some Mongo.BNull →
     ∃ d', classic !! i = Some d' ∧ serverless !! i = Some d'
           ∧ d' !! "supabaseUserId" = None
           ∧ ∀ f, f ≠ "supabaseUserId" → d' !! f = d !! f)
  ∧ (∀ v, d !! "supabaseUserId" = Some v → v ≠ Mongo.BNull →
       classic !! i = Some d ∧ serverless !! i = Some d).
Proof.
  intros Hm Hu Hd classic serverless. subst classic serverless.
  rewrite classic_docs_after, serverless_docs_after by done.
  rewrite (update_docs_lookup _ _ _ _ _ Hd).
  unfold Mongo.matches, Mongo.field_matches. simpl. split.
  - intros Hnull. exists (delete "supabaseUserId" d).
    rewrite bool_decide_eq_true_2 by auto. simpl.
    repeat split; [apply lookup_delete_eq|].
    intros f Hf. by apply lookup_delete_ne.
  - intros v Hv Hnn. rewrite bool_decide_eq_false_2; [done|].
    rewrite Hv. intros [?|?]; congruence.
Qed.

Lemma index_maintenance_contained_witness :
  (Js.Log "ℹ️ Old index not found or already updated."
     ∈ Mongo.console
         (Classic.onConnected Mongo.no_faults sample_mongoose sample_world).2
   ∧ Mongo.OpSyncIndexes
     ∈ Mongo.calls
         (Classic.onConnected Mongo.no_faults sample_mongoose sample_world).2)
  ∧ (Js.Log "ℹ️ Index already clean"
       ∈ Mongo.console
           (Serverless.onConnected Mongo.no_faults sample_mongoose sample_world).2
     ∧ Mongo.OpSyncIndexes
       ∈ Mongo.calls
           (Serverless.onConnected Mongo.no_faults sample_mongoose sample_world).2).
Proof.
  apply (index_maintenance_contained ∅ Mongo.no_faults sample_mongoose
           sample_world); [reflexivity | reflexivity |].
  right. apply (bool_decide_eq_false_1 _). vm_compute. reflexivity.
Defined.

Lemma null_identity_unset_witness :
  (∃ d', Mongo.docs (Mongo.users
           (Classic.onConnected Mongo.no_faults sample_mongoose sample_world).2)
           !! 0%nat = Some d'
         ∧ Mongo.docs (Mongo.users
           (Serverless.onConnected Mongo.no_faults sample_mongoose sample_world).2)
           !! 0%nat = Some d'
         ∧ d' !! "supabaseUserId" = None
         ∧ ∀ f, f ≠ "supabaseUserId" → d' !! f = sample_null_user !! f)
  ∧ Mongo.docs (Mongo.users
      (Classic.onConnected Mongo.no_faults sample_mongoose sample_world).2)
      !! 1%nat = Some sample_known_user.
Proof.
  split.
  - apply (null_identity_unset Mongo.no_faults sample_mongoose sample_world
             0 sample_null_user); reflexivity.
  - apply (null_identity_unset Mongo.no_faults sample_mongoose sample_world
             1 sample_known_user) with (v := Mongo.BString "5f0c");
      [reflexivity | reflexivity | reflexivity | reflexivity | discriminate].
Defined.

(* ===================================================================== *)
(** ** The cached connection of the serverless variant                    *)
(* ===================================================================== *)

Section ServerlessConnection.
Import Js Mongo.
Import Serverless.
Local Open Scope nat_scope.

Context (e : env).

Lemma take_elem (k : site) (l : list (site * nat)) (p : nat)
      (rest : list (site * nat)) :
  take k l = Some (p, rest) →
  (k, p) ∈ l ∧ ∀ x, x ∈ rest → x ∈ l.
Proof.
  revert p rest. induction l as [|[k' q] l IH]; intros p rest; simpl.
  - discriminate.
  - destruct (decide (k' = k)) as [->|Hne].
    + intros [= -> ->]. split; [left | intros x Hx; by right].
    + destruct (take k l) as [[q' rest']|] eqn:Ht; [|discriminate].
      intros [= -> <-]. destruct (IH _ _ eq_refl) as [Hin Hrest].
      split; [by right|].
      intros x [->|Hx]%elem_of_cons; [left | right; auto].
Qed.

Lemma take_is_Some (k : site) (l : list (site * nat)) (p : nat) :
  (k, p) ∈ l → is_Some (take k l).
Proof.
  induction l as [|[k' q] l IH]; simpl.
  - intros H. by apply elem_of_nil in H.
  - intros [[= <- <-]|Hin]%elem_of_cons.
    + rewrite decide_True by done. eauto.
    + destruct (decide (k' = k)); [eauto|].
      destruct (IH Hin) as [[q' rest] ->]. eauto.
Qed.

Lemma inv_init (w : Mongo.world) : serverless_inv e (init w).
Proof.
  constructor; simpl; try done; try lia.
  - intros k m H. by apply elem_of_nil in H.
  - intros k p H. by apply elem_of_nil in H.
Qed.

(** A call that ends keeps the invariant, as long as a returned value is
    the cached connection. *)
Lemma inv_finish (k : site) (r : returned) (s : state) :
  serverless_inv e s →
  (∀ m, r = Returned m → cached_conn s = Some m) →
  serverless_inv e (finish e k r s).
Proof.
  intros [] Hr. constructor; simpl; try done.
  - intros k' m [Hin|[= -> <-]%list_elem_of_singleton]%elem_of_app; eauto.
  - unfold session_returns. simpl. rewrite omap_app, fmap_app. simpl.
    destruct k, r; simpl; rewrite ?app_nil_r; try done.
    by f_equal.
Qed.

Lemma inv_exec (l : label) (s s' : state) :
  serverless_inv e s → exec e l s = Some s' → serverless_inv e s'.
Proof.
  intros Hinv Hexec. destruct l as [k|p r fl|k]; simpl in Hexec;
    unfold connectDB, connectDB_resume in Hexec.
  - (* Call *)
    destruct (cached_conn s) as [m|] eqn:Hconn.
    { injection Hexec as <-. apply inv_finish; [done|]. by intros ? [= <-]. }
    destruct (cached_promise s) as [p|] eqn:Hp;
      injection Hexec as <-; destruct Hinv.
    + constructor; simpl; try done.
      intros k' p' [Hin|[= -> ->]%list_elem_of_singleton]%elem_of_app; eauto.
    + specialize (inv_null0 Hp).
      constructor; simpl; rewrite ?inv_null0 in *; simpl in *;
        try done; try lia.
      * intros p [= <-]. lia.
      * intros m Hm. congruence.
      * intros k' p' [Hin|[= -> ->]%list_elem_of_singleton]%elem_of_app;
          [specialize (inv_awaiting0 _ _ Hin) |]; lia.
  - (* Settle *)
    destruct (promises s !! p) as [[| |]|] eqn:Hp; try discriminate.
    assert (p = 0) as ->.
    { apply lookup_lt_Some in Hp. destruct Hinv. lia. }
    assert (cached_conn s = None) as Hnone.
    { destruct (cached_conn s) as [m|] eqn:Hc; [|done].
      destruct Hinv. specialize (inv_conn0 _ Hc). congruence. }
    assert (∀ v w', serverless_inv e (settle 0 v w' s)) as Hsettle.
    { intros v w'. destruct Hinv.
      constructor; simpl; rewrite ?length_insert; try done.
      - intros Hn. specialize (inv_null0 Hn). rewrite inv_null0 in Hp.
        discriminate.
      - congruence. }
    destruct r as [m|err].
    + destruct (onConnected fl m (world s)) as [[m'|err] w'];
        injection Hexec as <-; apply Hsettle.
    + injection Hexec as <-. apply Hsettle.
  - (* Resume *)
    destruct (take k (awaiting s)) as [[p rest]|] eqn:Ht; [|discriminate].
    destruct (take_elem _ _ _ _ Ht) as [Hin Hrest].
    assert (p = 0) as ->.
    { destruct Hinv. specialize (inv_awaiting0 _ _ Hin). lia. }
    assert (serverless_inv e (set_awaiting rest s)) as Hinv'.
    { destruct Hinv. constructor; simpl; try done.
      intros k' p' Hin'. eapply inv_awaiting0. by apply Hrest. }
    destruct (promises s !! 0) as [[|m|err]|] eqn:Hp; try discriminate.
    + injection Hexec as <-. apply inv_finish; [|by intros ? [= <-]].
      destruct Hinv'. constructor; simpl in *; try done.
      * by intros ? [= <-].
      * intros k' m' Hfin. specialize (inv_finished0 _ _ Hfin).
        specialize (inv_conn0 _ inv_finished0). congruence.
    + injection Hexec as <-. apply inv_finish; [done|]. discriminate.
Qed.

Lemma inv_run (tr : list label) (s s' : state) :
  serverless_inv e s → run e tr s = Some s' → serverless_inv e s'.
Proof.
  revert s. induction tr as [|l tr IH]; intros s Hinv; simpl.
  - by intros [= <-].
  - destruct (exec e l s) as [s1|] eqn:Hexec; [|discriminate].
    apply IH. by eapply inv_exec.
Qed.

Lemma inv_reachable (w : Mongo.world) (tr : list label) (s : state) :
  run e tr (init w) = Some s → serverless_inv e s.
Proof. apply inv_run, inv_init. Qed.

End ServerlessConnection.

(* ===================================================================== *)
(** ** The startup of the classic variant                                 *)
(* ===================================================================== *)

Section ClassicStartup.
Import Js Mongo.
Import Classic.
Local Open Scope nat_scope.

Context (e : env).

Lemma cinv_load (w : Mongo.world) : classic_inv e (load e w).
Proof.
  constructor; simpl; try done; [|by left].
  intros u c H. by apply elem_of_nil in H.
Qed.

(** Only a failed connect attempt leads into the [.catch] callback. *)
Lemma exec_exited (l : label) (s s' : state) :
  exec e l s = Some s' →
  exited s = None
  ∧ (exited s' = None ∨ exited s' = Some 1%Z)
  ∧ (exited s' = Some 1%Z ↔ ∃ err fl, l = Settle (ConnectError err) fl).
Proof.
  unfold exec. destruct (exited s) eqn:Hex; [discriminate|].
  intros Hexec. split; [done|].
  destruct l as [[m|err] fl|req|u].
  - destruct (clientPromise s); try discriminate.
    pose proof (classic_onConnected_val fl m (world s)) as Hv.
    destruct (onConnected fl m (world s)) as [o w']. simpl in Hv. subst o.
    injection Hexec as <-. simpl. rewrite ?Hex.
    split; [by left|]. split; [discriminate|]. by intros (? & ? & ?).
  - destruct (clientPromise s); try discriminate.
    injection Hexec as <-. simpl. split; [by right|]. split; eauto.
  - destruct (listening s); [|discriminate].
    injection Hexec as <-. simpl. rewrite ?Hex.
    split; [by left|]. split; [discriminate|]. by intros (? & ? & ?).
  - destruct (clientPromise s); try discriminate.
    injection Hexec as <-. simpl. rewrite ?Hex.
    split; [by left|]. split; [discriminate|]. by intros (? & ? & ?).
Qed.

Lemma cinv_exec (l : label) (s s' : state) :
  classic_inv e s → exec e l s = Some s' → classic_inv e s'.
Proof.
  intros Hinv Hexec.
  destruct (exec_exited _ _ _ Hexec) as (Hex & Hcode & _).
  revert Hexec. unfold exec. rewrite Hex. destruct Hinv.
  destruct l as [[m|err] fl|req|u].
  - destruct (clientPromise s) eqn:Hp; try discriminate.
    destruct (onConnected fl m (world s)) as [[c|err] w'];
      intros [= <-]; constructor; simpl in *; try done.
    + intros u c' Hin. specialize (cinv_uses0 _ _ Hin). congruence.
    + by rewrite Hp.
  - destruct (clientPromise s) eqn:Hp; try discriminate.
    intros [= <-]; constructor; simpl in *; try done. by rewrite Hp.
  - destruct (listening s); [|discriminate].
    intros [= <-]; constructor; simpl in *; done.
  - destruct (clientPromise s) as [|c|] eqn:Hp; try discriminate.
    intros [= <-]; constructor; simpl in *; try done.
    intros u' c' [Hin|[= -> ->]%list_elem_of_singleton]%elem_of_app;
      [|done]. eauto.
Qed.

Lemma cinv_run (tr : list label) (s s' : state) :
  classic_inv e s → run e tr s = Some s' → classic_inv e s'.
Proof.
  revert s. induction tr as [|l tr IH]; intros s Hinv; simpl.
  - by intros [= <-].
  - destruct (exec e l s) as [s1|] eqn:Hexec; [|discriminate].
    apply IH. by eapply cinv_exec.
Qed.

Lemma cinv_reachable (w : Mongo.world) (tr : list label) (s : state) :
  run e tr (load e w) = Some s → classic_inv e s.
Proof. apply cinv_run, cinv_load. Qed.

(** Nothing runs in a process that has exited. *)
Lemma exec_after_exit (l : label) (s : state) :
  exited s ≠ None → exec e l s = None.
Proof. unfold exec. by destruct (exited s). Qed.

Lemma connect_failed_cons (l : label) (tr : list label) :
  connect_failed (l :: tr)
  ↔ (∃ err fl, l = Settle (ConnectError err) fl) ∨ connect_failed tr.
Proof.
  unfold connect_failed. split.
  - intros (err & fl & [<-|Hin]%elem_of_cons); eauto.
  - intros [(err & fl & ->)|(err & fl & Hin)]; exists err, fl;
      [left | by right].
Qed.

(** The process has exited, with code 1, exactly when the connect
    attempt of the trace failed. *)
Lemma run_exited (tr : list label) (s s' : state) :
  exited s = None → run e tr s = Some s' →
  (exited s' = None ∨ exited s' = Some 1%Z)
  ∧ (exited s' = Some 1%Z ↔ connect_failed tr).
Proof.
  revert s. induction tr as [|l tr IH]; intros s Hex; simpl.
  - intros [= <-]. rewrite Hex. split; [by left|].
    split; [discriminate|]. intros (err & fl & H). by apply elem_of_nil in H.
  - destruct (exec e l s) as [s1|] eqn:Hexec; [|discriminate].
    intros Hrun. rewrite connect_failed_cons.
    destruct (exec_exited _ _ _ Hexec) as (_ & [Hnone|Hone] & Hiff).
    + destruct (IH _ Hnone Hrun) as [Hcode IHiff]. split; [done|].
      rewrite IHiff. split; [by right|].
      intros [Hl|Hf]; [|done]. apply Hiff in Hl. congruence.
    + destruct tr as [|l' tr]; simpl in Hrun.
      * injection Hrun as <-. split; [by right|].
        split; [|done]. intros _. left. by apply Hiff.
      * rewrite exec_after_exit in Hrun by congruence. discriminate.
Qed.

End ClassicStartup.

Section ServerlessRejection.
Import Js Mongo.
Import Serverless.
Local Open Scope nat_scope.

Context (e : env).

(** Once the only attempt is rejected, any suspended call resumes by
    throwing its error. *)
Lemma resume_rejected (s : state) (err : Error) (k : site) (q : nat) :
  serverless_inv e s →
  promises s !! 0 = Some (Rejected err) →
  (k, q) ∈ awaiting s →
  ∃ rest, exec e (Resume k) s
          = Some (finish e k (Threw err) (set_awaiting rest s)).
Proof.
  intros Hinv Hrej Hin. simpl.
  destruct (take_is_Some _ _ _ Hin) as [[q' rest] Ht]. rewrite Ht.
  destruct (take_elem _ _ _ _ Ht) as [Hin' _].
  assert (q' = 0) as ->.
  { destruct Hinv. specialize (inv_awaiting0 _ _ Hin'). lia. }
  unfold connectDB_resume. rewrite Hrej. eauto.
Qed.

Lemma rejected_no_conn (s : state) (err : Error) :
  serverless_inv e s →
  promises s !! 0 = Some (Rejected err) →
  cached_conn s = None.
Proof.
  intros Hinv Hrej. destruct (cached_conn s) as [m|] eqn:Hc; [|done].
  destruct Hinv. specialize (inv_conn0 _ Hc). congruence.
Qed.

Lemma cached_promise_first (s : state) (p : nat) :
  serverless_inv e s → cached_promise s = Some p → p = 0.
Proof. intros [] Hp. specialize (inv_ref0 _ Hp). lia. Qed.

End ServerlessRejection.

(** C1: in one process lifetime, whatever the order of calls, settlements
    and resumptions, [mongoose.connect] is called at most once by
    [connectDB] and every call of [connectDB] that returns, returns the
    same connection; the classic module calls [mongoose.connect] exactly
    once, at load, and every use of [clientPromise] gets the same client. *)
Theorem single_connection (e : Js.env) (w : Mongo.world) :
  (∀ tr s, Serverless.run e tr (Serverless.init w) = Some s →
     (Serverless.connects s ≤ 1)%nat
     ∧ ∀ k1 k2 m1 m2,
         (k1, Serverless.Returned m1) ∈ Serverless.finished s →
         (k2, Serverless.Returned m2) ∈ Serverless.finished s →
         m1 = m2)
  ∧ (∀ tr s, Classic.run e tr (Classic.load e w) = Some s →
       Classic.connects s = 1%nat
       ∧ ∀ u1 u2 c1 c2,
           (u1, c1) ∈ Classic.uses s → (u2, c2) ∈ Classic.uses s → c1 = c2).
Proof.
  split.
  - intros tr s Hrun. destruct (inv_reachable e w tr s Hrun).
    split; [lia|]. intros k1 k2 m1 m2 H1 H2.
    specialize (inv_finished0 _ _ H1) as E1.
    specialize (inv_finished0 _ _ H2) as E2. congruence.
  - intros tr s Hrun. destruct (cinv_reachable e w tr s Hrun).
    split; [done|]. intros u1 u2 c1 c2 H1 H2.
    specialize (cinv_uses0 _ _ H1) as E1.
    specialize (cinv_uses0 _ _ H2) as E2. congruence.
Qed.

Lemma single_connection_witness :
  let k1 := Serverless.SessionMiddleware 1 in
  let k2 := Serverless.SessionMiddleware 2 in
  let k3 := Serverless.HealthCheck 2 in
  let tr := [Serverless.Call k1; Serverless.Call k2;
             Serverless.Settle 0 (ConnectOk sample_mongoose) Mongo.no_faults;
             Serverless.Resume k2; Serverless.Resume k1;
             Serverless.Call k3] in
  ∃ s, Serverless.run ∅ tr (Serverless.init sample_world) = Some s
       ∧ Serverless.finished s
         = [(k2, Serverless.Returned sample_mongoose);
            (k1, Serverless.Returned sample_mongoose);
            (k3, Serverless.Returned sample_mongoose)]
       ∧ (Serverless.connects s ≤ 1)%nat.
Proof.
  intros k1 k2 k3 tr.
  set (s := default (Serverless.init sample_world)
              (Serverless.run ∅ tr (Serverless.init sample_world))).
  assert (Serverless.run ∅ tr (Serverless.init sample_world) = Some s) as Hrun
    by (vm_compute; reflexivity).
  exists s. split; [exact Hrun|]. split; [vm_compute; reflexivity|].
  exact (proj1 (proj1 (single_connection ∅ sample_world) tr s Hrun)).
Defined.

(** C2, as stated, fails: after a failed attempt the next call of
    [connectDB] starts no new attempt ([mongoose.connect] has still been
    called once) and is rejected with the error of the first one. *)
Lemma rejected_attempt_stays_cached :
  let k1 := Serverless.SessionMiddleware 1 in
  let k2 := Serverless.SessionMiddleware 2 in
  let s := Serverless.run ∅
             [Serverless.Call k1;
              Serverless.Settle 0 (ConnectError sample_connect_error)
                Mongo.no_faults;
              Serverless.Resume k1;
              Serverless.Call k2;
              Serverless.Resume k2] (Serverless.init sample_world) in
  Serverless.connects <$> s = Some 1%nat
  ∧ Serverless.promises <$> s = Some [Rejected sample_connect_error]
  ∧ Serverless.finished <$> s
    = Some [(k1, Serverless.Threw sample_connect_error);
            (k2, Serverless.Threw sample_connect_error)].
Proof. split; [|split]; vm_compute; reflexivity. Qed.

(** C2, amended: when the lazy connect attempt fails, every call of
    [connectDB] that awaits it is rejected with its error, and the rejected
    attempt stays in the cache: a later call of [connectDB] starts no new
    attempt, awaits the same promise and is rejected with the same
    error. *)
Theorem rejected_attempt_propagates
        (e : Js.env) (w : Mongo.world) (tr : list Serverless.label)
        (s : Serverless.state) (p : nat) (err : Js.Error) :
  Serverless.run e tr (Serverless.init w) = Some s →
  Serverless.cached_promise s = Some p →
  Serverless.promises s !! p = Some (Rejected err) →
  (∀ k q, (k, q) ∈ Serverless.awaiting s →
     ∃ s', Serverless.exec e (Serverless.Resume k) s = Some s'
           ∧ Serverless.finished s'
             = Serverless.finished s ++ [(k, Serverless.Threw err)])
  ∧ (∀ k, ∃ s', Serverless.run e [Serverless.Call k; Serverless.Resume k] s
                = Some s'
                ∧ Serverless.connects s' = Serverless.connects s
                ∧ Serverless.promises s' = Serverless.promises s
                ∧ Serverless.cached_promise s' = Some p
                ∧ Serverless.finished s'
                  = Serverless.finished s ++ [(k, Serverless.Threw err)]).
Proof.
  intros Hrun Hp Hrej.
  pose proof (inv_reachable e w tr s Hrun) as Hinv.
  pose proof (cached_promise_first e s p Hinv Hp) as ->.
  split.
  - intros k q Hin.
    destruct (resume_rejected e s err k q Hinv Hrej Hin) as [rest ->].
    eexists. split; reflexivity.
  - intros k. cbn [Serverless.run Serverless.exec].
    unfold Serverless.connectDB.
    rewrite (rejected_no_conn e s err Hinv Hrej), Hp.
    assert (serverless_inv e (Serverless.suspend k 0 s)) as Hinv'.
    { apply (inv_exec e (Serverless.Call k) s); [done|]. simpl.
      unfold Serverless.connectDB.
      by rewrite (rejected_no_conn e s err Hinv Hrej), Hp. }
    destruct (resume_rejected e (Serverless.suspend k 0 s) err k 0 Hinv' Hrej)
      as [rest Hres].
    { simpl. apply elem_of_app. right. by left. }
    cbn [Serverless.exec] in Hres. rewrite Hres.
    eexists. split; [reflexivity|]. by repeat split.
Qed.

Lemma rejected_attempt_propagates_witness :
  let k1 := Serverless.SessionMiddleware 1 in
  let k2 := Serverless.SessionMiddleware 2 in
  let s := Serverless.settle 0 (Rejected sample_connect_error) sample_world
             (Serverless.suspend k1 0
                (Serverless.start_connect (Serverless.init sample_world))) in
  (∃ s', Serverless.exec ∅ (Serverless.Resume k1) s = Some s'
         ∧ Serverless.finished s'
           = Serverless.finished s
             ++ [(k1, Serverless.Threw sample_connect_error)])
  ∧ (∃ s', Serverless.run ∅ [Serverless.Call k2; Serverless.Resume k2] s
           = Some s'
           ∧ Serverless.connects s' = Serverless.connects s).
Proof.
  intros k1 k2 s.
  destruct (rejected_attempt_propagates ∅ sample_world
              [Serverless.Call k1;
               Serverless.Settle 0 (ConnectError sample_connect_error)
                 Mongo.no_faults]
              s 0 sample_connect_error) as [Hawait Hnext];
    [vm_compute; reflexivity | vm_compute; reflexivity
     | vm_compute; reflexivity |].
  split.
  - apply (Hawait k1 0%nat). by left.
  - destruct (Hnext k2) as (s' & Hs' & Hc & _). exists s'. by split.
Defined.

(** C8, as stated, fails: the listener does not wait for the connect
    attempt, so a health check that arrives before the attempt fails is
    answered with 200 by the process that then exits. *)
Lemma classic_serves_before_connect_failure :
  let s := Classic.run ∅
             [Classic.Request 7;
              Classic.Settle (ConnectError sample_connect_error)
                Mongo.no_faults] (Classic.load ∅ sample_world) in
  Classic.exited <$> s = Some (Some 1)
  ∧ Classic.responses <$> s
    = Some [(7%nat, {| Classic.h_code := 200;
                       Classic.h_status := "OK";
                       Classic.h_message := "🚀 Backend running";
                       Classic.h_loggedIn := false;
                       Classic.h_environment := "development" |})].
Proof. split; vm_compute; reflexivity. Qed.

(** C8, amended: the classic process exits exactly when its connect
    attempt fails, with code 1, and nothing runs in it afterwards; failures
    of the index maintenance do not end it.  The listener is up from module
    load on and does not wait for the attempt: while the process is alive,
    also before the attempt has ended, a health check without session
    cookie is answered. *)
Theorem classic_exit_on_connect_failure
        (e : Js.env) (w : Mongo.world) (tr : list Classic.label)
        (s : Classic.state) :
  Classic.run e tr (Classic.load e w) = Some s →
  (Classic.exited s = None ∨ Classic.exited s = Some 1)
  ∧ (Classic.connect_failed tr ↔ Classic.exited s = Some 1)
  ∧ (Classic.exited s = Some 1 → ∀ l, Classic.exec e l s = None)
  ∧ (Classic.exited s = None → Classic.clientPromise s = Pending →
     ∀ err fl, ∃ s',
       Classic.exec e (Classic.Settle (ConnectError err) fl) s = Some s'
       ∧ Classic.exited s' = Some 1
       ∧ Classic.responses s' = Classic.responses s)
  ∧ (Classic.exited s = None →
     ∀ req, ∃ s',
       Classic.exec e (Classic.Request req) s = Some s'
       ∧ Classic.responses s'
         = Classic.responses s ++ [(req, Classic.healthCheck e None)]).
Proof.
  intros Hrun.
  destruct (run_exited e tr (Classic.load e w) s eq_refl Hrun) as [Hcode Hiff].
  destruct (cinv_reachable e w tr s Hrun) as [_ _ Hlisten _ _].
  split; [done|]. split; [by symmetry|]. split; [|split].
  - intros Hex l. apply exec_after_exit. congruence.
  - intros Hex Hp err fl. unfold Classic.exec. rewrite Hex, Hp.
    eexists. split; [reflexivity|]. by split.
  - intros Hex req. unfold Classic.exec. rewrite Hex, Hlisten.
    eexists. split; reflexivity.
Qed.

Lemma classic_exit_on_connect_failure_witness :
  let tr := [Classic.Request 7;
             Classic.Settle (ConnectError sample_connect_error)
               Mongo.no_faults] in
  ∃ s, Classic.run ∅ tr (Classic.load ∅ sample_world) = Some s
       ∧ Classic.exited s = Some 1
       ∧ ∀ l, Classic.exec ∅ l s = None.
Proof.
  intros tr.
  set (s := default (Classic.load ∅ sample_world)
              (Classic.run ∅ tr (Classic.load ∅ sample_world))).
  assert (Classic.run ∅ tr (Classic.load ∅ sample_world) = Some s) as Hrun
    by (vm_compute; reflexivity).
  exists s. split; [exact Hrun|].
  destruct (classic_exit_on_connect_failure ∅ sample_world tr s Hrun)
    as (_ & Hiff & Hdead & _).
  assert (Classic.connect_failed tr) as Hfailed.
  { exists sample_connect_error, Mongo.no_faults. right. by left. }
  apply Hiff in Hfailed. split; [exact Hfailed | exact (Hdead Hfailed)].
Defined.

(** C9: in the serverless variant nothing is built at startup; each call
    of the session middleware whose [connectDB] returns builds one
    [session(...)] with one [MongoStore.create] on the raw
    [MONGO_URI] string, so the stores built are, in order, one per such
    request, while [mongoose.connect] is called at most once; with the
    connection cached, one more request means one more store and no new
    connect. *)
Theorem session_store_per_request
        (e : Js.env) (w : Mongo.world) (tr : list Serverless.label)
        (s : Serverless.state) :
  Serverless.run e tr (Serverless.init w) = Some s →
  Serverless.sessions (Serverless.init w) = []
  ∧ Serverless.sessions s
    = (λ req, (req, Serverless.sessionOptions e)) <$>
        Serverless.session_returns s
  ∧ Session.connection (Session.store (Serverless.sessionOptions e))
    = Session.MongoUrl (e !! "MONGO_URI")
  ∧ (Serverless.connects s ≤ 1)%nat
  ∧ (∀ req m, Serverless.cached_conn s = Some m →
       ∃ s', Serverless.exec e
               (Serverless.Call (Serverless.SessionMiddleware req)) s = Some s'
             ∧ Serverless.sessions s'
               = Serverless.sessions s ++ [(req, Serverless.sessionOptions e)]
             ∧ Serverless.connects s' = Serverless.connects s).
Proof.
  intros Hrun. destruct (inv_reachable e w tr s Hrun).
  split; [done|]. split; [done|]. split; [done|]. split; [lia|].
  intros req m Hconn. simpl. unfold Serverless.connectDB. rewrite Hconn.
  eexists. split; [reflexivity|]. by split.
Qed.

Lemma session_store_per_request_witness :
  let tr := [Serverless.Call (Serverless.SessionMiddleware 1);
             Serverless.Settle 0 (ConnectOk sample_mongoose) Mongo.no_faults;
             Serverless.Resume (Serverless.SessionMiddleware 1);
             Serverless.Call (Serverless.SessionMiddleware 2);
             Serverless.Call (Serverless.HealthCheck 2);
             Serverless.Call (Serverless.SessionMiddleware 3)] in
  ∃ s, Serverless.run ∅ tr (Serverless.init sample_world) = Some s
       ∧ Serverless.session_returns s = [1; 2; 3]%nat
       ∧ Serverless.sessions s
         = [(1, Serverless.sessionOptions ∅); (2, Serverless.sessionOptions ∅);
            (3, Serverless.sessionOptions ∅)]%nat
       ∧ (Serverless.connects s ≤ 1)%nat.
Proof.
  intros tr.
  set (s := default (Serverless.init sample_world)
              (Serverless.run ∅ tr (Serverless.init sample_world))).
  assert (Serverless.run ∅ tr (Serverless.init sample_world) = Some s) as Hrun
    by (vm_compute; reflexivity).
  exists s. split; [exact Hrun|].
  assert (Serverless.session_returns s = [1; 2; 3]%nat) as Hreturns
    by (vm_compute; reflexivity).
  split; [exact Hreturns|].
  destruct (session_store_per_request ∅ sample_world tr s Hrun)
    as (_ & Hsessions & _ & Hconnects & _).
  split; [|exact Hconnects].
  rewrite Hsessions, Hreturns. reflexivity.
Defined.

(* ===================================================================== *)
(** ** Further properties of the configuration                            *)
(* ===================================================================== *)

Section ConfigurationFacts.
Import Js.

Lemma or_string_nonempty (v : option string) (d : string) :
  d ≠ "" → or_string v d ≠ "".
Proof.
  intros Hd. destruct v as [s|]; simpl; [|done].
  case_bool_decide; done.
Qed.

Lemma or_string_cases (v : option string) (d : string) :
  (v = Some (or_string v d) ∧ or_string v d ≠ "")
  ∨ (or_string v d = d ∧ (v = None ∨ v = Some "")).
Proof.
  destruct v as [s|]; simpl; [|right; auto].
  case_bool_decide as Hs; [left; auto|].
  right. split; [done|]. right. f_equal.
  by destruct (decide (s = "")).
Qed.

End ConfigurationFacts.

(** X1: whichever variant builds the session options and whatever the
    environment, the cookie is [httpOnly], it is marked [sameSite: "none"]
    exactly when it is marked [secure], and it expires in the browser
    before the store drops the session. *)
Theorem cookie_policy_consistent (e : Js.env) (o : Session.options) :
  o = Classic.sessionOptions e ∨ o = Serverless.sessionOptions e →
  Session.name o = "startup.sid"
  ∧ Session.httpOnly (Session.cookie o) = true
  ∧ (Session.sameSite (Session.cookie o) = "none"
     ↔ Session.secure (Session.cookie o) = true)
  ∧ Session.maxAge (Session.cookie o) < 1000 * Session.ttl (Session.store o).
Proof.
  intros [-> | ->]; simpl.
  - repeat split; try done; unfold Js.strict_eq; case_bool_decide; done.
  - repeat split; done.
Qed.

Lemma cookie_policy_consistent_witness :
  Session.sameSite (Session.cookie (Classic.sessionOptions
                                      {[ "NODE_ENV" := "production" ]})) = "none"
  ↔ Session.secure (Session.cookie (Classic.sessionOptions
                                      {[ "NODE_ENV" := "production" ]})) = true.
Proof.
  apply (cookie_policy_consistent {[ "NODE_ENV" := "production" ]}).
  left. reflexivity.
Defined.

(** X2: the classic variant never hands an empty or undefined secret to
    the session middleware: the secret is [SESSION_SECRET] when that is a
    non-empty string, and the fallback constant otherwise, also when the
    variable is set to the empty string. *)
Theorem classic_secret_never_empty (e : Js.env) :
  ∃ s, Session.secret (Classic.sessionOptions e) = Some s
       ∧ s ≠ ""
       ∧ ((e !! "SESSION_SECRET" = Some s)
          ∨ (s = "secret_fallback_key"
             ∧ (e !! "SESSION_SECRET" = None
                ∨ e !! "SESSION_SECRET" = Some ""))).
Proof.
  eexists. split; [reflexivity|]. split.
  - by apply or_string_nonempty.
  - destruct (or_string_cases (e !! "SESSION_SECRET") "secret_fallback_key")
      as [[H _]|[H1 H2]]; [by left | by right].
Qed.



(** X4: the classic health check reports the environment "production"
    exactly when the session cookie is the secure one, and never reports
    an empty environment. *)
Theorem health_environment_matches_cookie (e : Js.env) (user : option string) :
  (Classic.h_environment (Classic.healthCheck e user) = "production"
   ↔ Session.secure (Session.cookie (Classic.sessionOptions e)) = true)
  ∧ Classic.h_environment (Classic.healthCheck e user) ≠ ""
  ∧ Classic.h_code (Classic.healthCheck e user) = 200
  ∧ (Classic.h_loggedIn (Classic.healthCheck e user) = true ↔ is_Some user).
Proof.
  simpl. split; [|split; [by apply or_string_nonempty | split; [done|]]].
  - rewrite strict_eq_true.
    destruct (or_string_cases (e !! "NODE_ENV") "development")
      as [[H Hne]|[H1 H2]].
    + split; [intros Hp; by rewrite <- Hp | intros Hp].
      by rewrite Hp.
    + rewrite H1. split; [done|]. intros Hp. rewrite Hp in H2.
      destruct H2 as [?|?]; done.
  - apply bool_decide_eq_true.
Qed.

(** X5: the origin check allows a request exactly when it has no Origin
    value (no header, or an empty one) or its Origin is in the allow-list;
    in particular a non-empty configured frontend URL is allowed, and every
    rejection carries the same error. *)
Theorem cors_allow_iff (e : Js.env) (o : option string) :
  (Cors.origin e o = Cors.Allow
   ↔ o = None ∨ o = Some "" ∨ o ∈ Cors.allowedOrigins e)
  ∧ (o ≠ None → e !! "GOOGLE_CLIENT_URL" = o → Cors.origin e o = Cors.Allow)
  ∧ (Cors.origin e o ≠ Cors.Allow →
     Cors.origin e o = Cors.Reject (Js.new_Error "Not allowed by CORS")).
Proof.
  unfold Cors.origin.
  destruct (Js.truthy_string o) eqn:Ht; simpl.
  - destruct (Js.includes (Cors.allowedOrigins e) o) eqn:Hi.
    + apply includes_true in Hi. repeat split; auto. done.
    + assert (o ∉ Cors.allowedOrigins e) as Hout.
      { intros Hin. apply includes_true in Hin. congruence. }
      split; [split; [done|]|split].
      * intros [->|[->|Hin]]; [done | done | contradiction].
      * intros _ Hcfg. exfalso. apply Hout. rewrite <- Hcfg. by left.
      * done.
  - apply truthy_string_false in Ht. repeat split; auto; try done.
    destruct Ht; auto.
Qed.

Lemma cors_allow_iff_witness :
  Cors.origin {[ "GOOGLE_CLIENT_URL" := "https://app.example.org" ]}
    (Some "https://app.example.org") = Cors.Allow.
Proof.
  apply (cors_allow_iff {[ "GOOGLE_CLIENT_URL" := "https://app.example.org" ]}
           (Some "https://app.example.org")); [done | reflexivity].
Defined.

(* ===================================================================== *)
(** ** Further properties of the index maintenance                        *)
(* ===================================================================== *)

(** Computes a [.then] callback on a symbolic world, by cases on the
    faults. *)
Ltac callback_cases fl :=
  destruct fl as [[?|] [?|] [?|] [?|]]; simpl in *; simplify_eq;
  unfold Classic.onConnected, Serverless.onConnected,
    MongoOps.model, MongoOps.updateMany, MongoOps.dropIndex,
    MongoOps.syncIndexes,
    Mongo.bind, Mongo.try_catch, Mongo.ret, Mongo.throw, Mongo.console_log,
    Mongo.record, Mongo.raise_fault, Mongo.get_users, Mongo.set_users;
  cbn -[Mongo.update_docs difference union];
  repeat case_bool_decide;
  cbn -[Mongo.update_docs difference union].

Section MaintenanceFacts.
Import Js Mongo MongoOps.

Lemma matches_null_identity (d : document) :
  matches null_identity d = true
  ↔ d !! "supabaseUserId" = None ∨ d !! "supabaseUserId" = Some BNull.
Proof.
  unfold matches, null_identity, field_matches. simpl.
  rewrite andb_true_r. apply bool_decide_eq_true.
Qed.

Lemma unset_null_lookup (d : document) :
  unset_null d !! "supabaseUserId" ≠ Some BNull.
Proof.
  unfold unset_null. destruct (matches null_identity d) eqn:Hm; simpl.
  - by rewrite lookup_delete_eq.
  - intros Hn. assert (matches null_identity d = true) as Ht; [|congruence].
    apply matches_null_identity. by right.
Qed.

Lemma unset_null_absent (d : document) :
  d !! "supabaseUserId" = None → unset_null d = d.
Proof.
  intros Hn. unfold unset_null.
  destruct (matches null_identity d); [|done]. simpl. by apply delete_id.
Qed.

Lemma unset_null_idemp (d : document) : unset_null (unset_null d) = unset_null d.
Proof.
  unfold unset_null at 2 3. destruct (matches null_identity d) eqn:Hm; simpl.
  - apply unset_null_absent. apply lookup_delete_eq.
  - unfold unset_null. by rewrite Hm.
Qed.

Lemma update_docs_idemp (ds : list document) :
  update_docs null_identity unset_identity
    (update_docs null_identity unset_identity ds)
  = update_docs null_identity unset_identity ds.
Proof.
  unfold update_docs. rewrite <- list_fmap_compose.
  apply list_fmap_ext. intros i d _. apply unset_null_idemp.
Qed.

(** The database after a maintenance whose steps all succeed. *)
Lemma classic_users_after (fl : faults) (m : mongoose) (w : world) :
  steps_succeed fl →
  users (Classic.onConnected fl m w).2
  = {| docs := update_docs null_identity unset_identity (docs (users w));
       indexes := {["_id_"]} ∪ schemaIndexes (users w);
       schemaIndexes := schemaIndexes (users w) |}.
Proof. intros (Hm & Hu & Hs). callback_cases fl; reflexivity. Qed.

Lemma serverless_users_after (fl : faults) (m : mongoose) (w : world) :
  steps_succeed fl →
  users (Serverless.onConnected fl m w).2
  = {| docs := update_docs null_identity unset_identity (docs (users w));
       indexes := {["_id_"]} ∪ schemaIndexes (users w);
       schemaIndexes := schemaIndexes (users w) |}.
Proof. intros (Hm & Hu & Hs). callback_cases fl; reflexivity. Qed.

End MaintenanceFacts.

(** X6: where the first step runs, the maintenance leaves no user whose
    [supabaseUserId] holds null, keeps the number of users, and leaves the
    users that do not have the field as they were (the query selects them,
    the update has nothing to remove); both variants give the same
    documents. *)
Theorem no_null_identity_left
        (fl : Mongo.faults) (m : Mongo.mongoose) (w : Mongo.world) :
  Mongo.model_fault fl = None → Mongo.updateMany_fault fl = None →
  let after := Mongo.docs (Mongo.users (Classic.onConnected fl m w).2) in
  after = Mongo.docs (Mongo.users (Serverless.onConnected fl m w).2)
  ∧ length after = length (Mongo.docs (Mongo.users w))
  ∧ Forall (λ d : Mongo.document, d !! "supabaseUserId" ≠ Some Mongo.BNull)
           after
  ∧ ∀ (i : nat) (d : Mongo.document),
      Mongo.docs (Mongo.users w) !! i = Some d →
      d !! "supabaseUserId" = None → after !! i = Some d.
Proof.
  intros Hm Hu after. subst after.
  rewrite classic_docs_after, serverless_docs_after by done.
  split; [done|]. unfold Mongo.update_docs. split; [apply length_fmap|].
  split.
  - apply Forall_fmap, Forall_forall. intros d _. apply unset_null_lookup.
  - intros i d Hd Hn. rewrite list_lookup_fmap, Hd. simpl. f_equal.
    by apply unset_null_absent.
Qed.

Lemma no_null_identity_left_witness :
  Forall (λ d : Mongo.document, d !! "supabaseUserId" ≠ Some Mongo.BNull)
    (Mongo.docs (Mongo.users
       (Classic.onConnected Mongo.no_faults sample_mongoose sample_world).2))
  ∧ Mongo.docs (Mongo.users
       (Classic.onConnected Mongo.no_faults sample_mongoose sample_world).2)
    !! 2%nat = Some sample_plain_user.
Proof.
  destruct (no_null_identity_left Mongo.no_faults sample_mongoose sample_world
              eq_refl eq_refl) as (_ & _ & Hall & Hkeep).
  split; [exact Hall|]. apply Hkeep; reflexivity.
Defined.

(** X7: the maintenance is idempotent: after a run whose steps succeed, a
    second run whose steps succeed (the next cold start) changes neither
    the documents nor the indexes, whether or not [dropIndex] finds the
    legacy index. *)
Theorem maintenance_idempotent
        (fl1 fl2 : Mongo.faults) (m1 m2 : Mongo.mongoose) (w : Mongo.world) :
  steps_succeed fl1 → steps_succeed fl2 →
  Mongo.users (Classic.onConnected fl2 m2 (Classic.onConnected fl1 m1 w).2).2
  = Mongo.users (Classic.onConnected fl1 m1 w).2
  ∧ Mongo.users
      (Serverless.onConnected fl2 m2 (Serverless.onConnected fl1 m1 w).2).2
    = Mongo.users (Serverless.onConnected fl1 m1 w).2.
Proof.
  intros H1 H2.
  rewrite (classic_users_after fl2), (serverless_users_after fl2) by done.
  rewrite (classic_users_after fl1), (serverless_users_after fl1) by done.
  simpl. by rewrite update_docs_idemp.
Qed.

Lemma maintenance_idempotent_witness :
  Mongo.users
    (Classic.onConnected Mongo.no_faults sample_mongoose
       (Classic.onConnected Mongo.no_faults sample_mongoose sample_world).2).2
  = Mongo.users
      (Classic.onConnected Mongo.no_faults sample_mongoose sample_world).2.
Proof.
  apply (maintenance_idempotent Mongo.no_faults Mongo.no_faults
           sample_mongoose sample_mongoose sample_world);
    repeat split.
Defined.

Section MaintenanceCalls.
Import Js Mongo MongoOps.

Lemma variants_same_users (fl : faults) (m : mongoose) (w : world) :
  users (Classic.onConnected fl m w).2 = users (Serverless.onConnected fl m w).2.
Proof. callback_cases fl; reflexivity. Qed.

Lemma variants_same_calls (fl : faults) (m : mongoose) (w : world) :
  calls (Classic.onConnected fl m w).2 = calls (Serverless.onConnected fl m w).2.
Proof. callback_cases fl; reflexivity. Qed.

Lemma classic_calls_after (fl : faults) (m : mongoose) (w : world) :
  calls (Classic.onConnected fl m w).2
  = calls w ++ take (steps_reached fl) maintenance_calls.
Proof.
  unfold steps_reached, maintenance_calls.
  callback_cases fl; rewrite <- ?app_assoc; reflexivity.
Qed.

Lemma classic_users_untouched (fl : faults) (m : mongoose) (w : world) :
  (steps_reached fl < 4)%nat → users (Classic.onConnected fl m w).2 = users w.
Proof.
  unfold steps_reached. intros Hlt.
  callback_cases fl; solve [reflexivity | lia | by destruct (users w)].
Qed.

End MaintenanceCalls.

(** X8: the two variants do the same to the database: for the same faults
    and the same database they leave the same documents and indexes and
    make the same database calls (they differ in what they log and
    return). *)
Theorem variants_same_database_effect
        (fl : Mongo.faults) (m : Mongo.mongoose) (w : Mongo.world) :
  Mongo.users (Classic.onConnected fl m w).2
  = Mongo.users (Serverless.onConnected fl m w).2
  ∧ Mongo.calls (Classic.onConnected fl m w).2
    = Mongo.calls (Serverless.onConnected fl m w).2.
Proof. split; [apply variants_same_users | apply variants_same_calls]. Qed.

(** X9: the database calls of one maintenance are a prefix of [model],
    [updateMany], [dropIndex], [syncIndexes], each made at most once:
    [model] alone when it throws, the first two when [updateMany] is
    refused, and all four otherwise, so that [dropIndex] is always followed
    by [syncIndexes].  When the maintenance stops before [dropIndex], the
    documents and the indexes are exactly as before. *)
Theorem maintenance_calls_made
        (fl : Mongo.faults) (m : Mongo.mongoose) (w : Mongo.world) :
  Mongo.calls (Classic.onConnected fl m w).2
  = Mongo.calls w ++ take (steps_reached fl) maintenance_calls
  ∧ Mongo.calls (Serverless.onConnected fl m w).2
    = Mongo.calls w ++ take (steps_reached fl) maintenance_calls
  ∧ (steps_reached fl = 1 ∨ steps_reached fl = 2 ∨ steps_reached fl = 4)%nat
  ∧ ((steps_reached fl < 4)%nat →
     Mongo.users (Classic.onConnected fl m w).2 = Mongo.users w
     ∧ Mongo.users (Serverless.onConnected fl m w).2 = Mongo.users w).
Proof.
  split; [apply classic_calls_after|].
  split; [rewrite <- variants_same_calls; apply classic_calls_after|].
  split.
  - unfold steps_reached.
    destruct (Mongo.model_fault fl), (Mongo.updateMany_fault fl); auto.
  - intros Hlt. rewrite <- variants_same_users.
    split; by apply classic_users_untouched.
Qed.

Lemma maintenance_calls_made_witness :
  let fl := {| Mongo.model_fault := None;
               Mongo.updateMany_fault := Some sample_connect_error;
               Mongo.dropIndex_fault := None;
               Mongo.syncIndexes_fault := None |} in
  Mongo.users (Classic.onConnected fl sample_mongoose sample_world).2
  = Mongo.users sample_world
  ∧ Mongo.users (Serverless.onConnected fl sample_mongoose sample_world).2
    = Mongo.users sample_world.
Proof.
  intros fl. apply (maintenance_calls_made fl sample_mongoose sample_world).
  vm_compute. lia.
Defined.

(* ===================================================================== *)
(** ** Further properties of the cached connection                        *)
(* ===================================================================== *)

Section ServerlessOutcomes.
Import Js Mongo.
Import Serverless.
Local Open Scope nat_scope.

Context (e : env).

(** With at most one promise, the first one is the only one. *)
Lemma only_promise (s : state) (v : promise mongoose) :
  serverless_inv e s → promises s !! 0 = Some v → promises s = [v].
Proof.
  intros [Hconnects Honce Hnull Href Hconn0 Hfin Hawait Hsess] Hv.
  destruct (promises s) as [|v' [|v'' l]]; simpl in *;
    [discriminate | by injection Hv as -> | lia].
Qed.

Lemma outcome_inv_init (w : Mongo.world) : serverless_outcome_inv w (init w).
Proof.
  constructor; simpl; [|done]. intros k err H. by apply elem_of_nil in H.
Qed.

Lemma outcome_inv_finish (w0 : Mongo.world) (k : site) (r : returned)
      (s : state) :
  serverless_outcome_inv w0 s →
  (∀ err, r = Threw err → promises s !! 0 = Some (Rejected err)) →
  serverless_outcome_inv w0 (finish e k r s).
Proof.
  intros [Hthrew Hworld] Hr. constructor; simpl; [|done].
  intros k' err [Hin|[= -> <-]%list_elem_of_singleton]%elem_of_app; eauto.
Qed.

Lemma outcome_inv_exec (w0 : Mongo.world) (l : label) (s s' : state) :
  serverless_inv e s → serverless_outcome_inv w0 s →
  exec e l s = Some s' → serverless_outcome_inv w0 s'.
Proof.
  intros Hinv Hout Hexec. destruct l as [k|p r fl|k]; simpl in Hexec;
    unfold connectDB, connectDB_resume in Hexec.
  - (* Call *)
    destruct (cached_conn s) as [m|] eqn:Hconn.
    { injection Hexec as <-. apply outcome_inv_finish; [done|discriminate]. }
    destruct (cached_promise s) as [p|] eqn:Hp; injection Hexec as <-.
    + destruct Hout as [Hthrew Hworld]. by constructor.
    + destruct Hinv as [Hconnects Honce Hnull Href Hconn0 Hfin Hawait Hsess].
      destruct Hout as [Hthrew Hworld].
      specialize (Hnull Hp). rewrite Hnull in *. simpl in *.
      constructor; simpl; [|by rewrite Hnull].
      intros k' err Hin. by specialize (Hthrew _ _ Hin).
  - (* Settle *)
    destruct (promises s !! p) as [[| |]|] eqn:Hp; try discriminate.
    assert (p = 0) as ->.
    { apply lookup_lt_Some in Hp. destruct Hinv as [Hconnects Honce Hnull Href Hconn0 Hfin Hawait Hsess]. lia. }
    assert (world s = w0) as Hw.
    { destruct Hout as [Hthrew Hworld]. by rewrite Hp in Hworld. }
    assert (∀ k err, (k, Threw err) ∈ finished s → False) as Hnone.
    { intros k err Hin. destruct Hout as [Hthrew Hworld].
      specialize (Hthrew _ _ Hin). congruence. }
    assert (0 < length (promises s)) as Hlen by by eapply lookup_lt_Some.
    destruct r as [m|err].
    + pose proof (serverless_onConnected_val fl m (world s)) as Hv.
      destruct (onConnected fl m (world s)) as [o w'] eqn:Hrun.
      simpl in Hv. subst o. injection Hexec as <-.
      constructor; simpl; [intros k err Hin; by destruct (Hnone k err)|].
      rewrite list_lookup_insert_eq by done.
      exists fl. by rewrite <- Hw, Hrun.
    + injection Hexec as <-.
      constructor; simpl; [intros k err' Hin; by destruct (Hnone k err')|].
      by rewrite list_lookup_insert_eq.
  - (* Resume *)
    destruct (take k (awaiting s)) as [[p rest]|] eqn:Ht; [|discriminate].
    destruct (take_elem _ _ _ _ Ht) as [Hin _].
    assert (p = 0) as ->.
    { destruct Hinv as [Hconnects Honce Hnull Href Hconn0 Hfin Hawait Hsess]. specialize (Hawait _ _ Hin). lia. }
    assert (serverless_outcome_inv w0 (set_awaiting rest s)) as Hout1.
    { destruct Hout as [Hthrew Hworld]. by constructor. }
    destruct (promises s !! 0) as [[|m|err]|] eqn:Hp; try discriminate;
      injection Hexec as <-.
    + apply outcome_inv_finish; [|discriminate].
      destruct Hout1 as [Hthrew Hworld]. by constructor.
    + apply outcome_inv_finish; [done|]. by intros ? [= <-].
Qed.

Lemma outcome_inv_run (w0 : Mongo.world) (tr : list label) (s s' : state) :
  serverless_inv e s → serverless_outcome_inv w0 s →
  run e tr s = Some s' → serverless_outcome_inv w0 s'.
Proof.
  revert s. induction tr as [|l tr IH]; intros s Hinv Hout; simpl.
  - by intros [= <-].
  - destruct (exec e l s) as [s1|] eqn:Hexec; [|discriminate].
    apply IH; [by eapply inv_exec | by eapply outcome_inv_exec].
Qed.

Lemma outcome_inv_reachable (w : Mongo.world) (tr : list label) (s : state) :
  run e tr (init w) = Some s → serverless_outcome_inv w s.
Proof. apply outcome_inv_run; [apply inv_init | apply outcome_inv_init]. Qed.

(** What one turn keeps. *)
Lemma exec_stable (l : label) (s s' : state) :
  serverless_inv e s → exec e l s = Some s' →
  (∀ m, cached_conn s = Some m → cached_conn s' = Some m)
  ∧ (∀ p, cached_promise s = Some p → cached_promise s' = Some p)
  ∧ connects s ≤ connects s'
  ∧ finished s `prefix_of` finished s'
  ∧ sessions s `prefix_of` sessions s'.
Proof.
  assert (∀ k r s0, finished s0 `prefix_of` finished (finish e k r s0)
                    ∧ sessions s0 `prefix_of` sessions (finish e k r s0))
    as Hfinish.
  { intros k r s0. split; [by eexists|].
    destruct k, r; simpl; first [by eexists | done]. }
  intros Hinv Hexec. destruct l as [k|p r fl|k]; simpl in Hexec;
    unfold connectDB, connectDB_resume in Hexec.
  - destruct (cached_conn s) as [m|] eqn:Hconn.
    { injection Hexec as <-. destruct (Hfinish k (Returned m) s).
      repeat split; simpl; auto. by rewrite Hconn. }
    destruct (cached_promise s) as [p|] eqn:Hp; injection Hexec as <-;
      simpl; repeat split; try done; auto with lia.
    by intros ? [= <-].
  - destruct (promises s !! p) as [[| |]|]; try discriminate.
    destruct r as [m|err];
      [destruct (onConnected fl m (world s)) as [[m'|err] w']|];
      injection Hexec as <-; simpl; by repeat split.
  - destruct (take k (awaiting s)) as [[p rest]|] eqn:Ht; [|discriminate].
    destruct (take_elem _ _ _ _ Ht) as [Hin _].
    assert (p = 0) as ->.
    { destruct Hinv as [Hconnects Honce Hnull Href Hconn0 Hfin Hawait Hsess]. specialize (Hawait _ _ Hin). lia. }
    destruct (promises s !! 0) as [[|m|err]|] eqn:Hp; try discriminate;
      injection Hexec as <-.
    + destruct (Hfinish k (Returned m) (set_conn m (set_awaiting rest s))).
      repeat split; simpl; auto.
      intros m' Hm'. destruct Hinv as [Hconnects Honce Hnull Href Hconn0 Hfin Hawait Hsess].
      specialize (Hconn0 _ Hm'). congruence.
    + destruct (Hfinish k (Threw err) (set_awaiting rest s)).
      repeat split; simpl; auto.
Qed.

Lemma run_stable (tr : list label) (s s' : state) :
  serverless_inv e s → run e tr s = Some s' →
  (∀ m, cached_conn s = Some m → cached_conn s' = Some m)
  ∧ (∀ p, cached_promise s = Some p → cached_promise s' = Some p)
  ∧ connects s ≤ connects s'
  ∧ finished s `prefix_of` finished s'
  ∧ sessions s `prefix_of` sessions s'.
Proof.
  revert s. induction tr as [|l tr IH]; intros s Hinv; simpl.
  - intros [= <-]. by repeat split.
  - destruct (exec e l s) as [s1|] eqn:Hexec; [|discriminate]. intros Hrun.
    destruct (exec_stable _ _ _ Hinv Hexec) as (H1 & H2 & H3 & H4 & H5).
    destruct (IH s1 (inv_exec e _ _ _ Hinv Hexec) Hrun)
      as (I1 & I2 & I3 & I4 & I5).
    repeat split; [auto | auto | lia | by etrans | by etrans].
Qed.

(** Resuming the suspended calls in the order they were suspended, once
    the promise is settled with [v]: each ends with the outcome of [v] and
    none stays suspended. *)
Lemma resume_in_order (v : promise mongoose) (r : returned) (s : state) :
  outcome_of v = Some r →
  promises s !! 0 = Some v →
  (∀ k p, (k, p) ∈ awaiting s → p = 0) →
  ∃ s', run e (Resume <$> (awaiting s).*1) s = Some s'
        ∧ awaiting s' = []
        ∧ finished s' = finished s ++ ((λ k, (k, r)) <$> (awaiting s).*1)
        ∧ connects s' = connects s
        ∧ promises s' = promises s.
Proof.
  intros Hr. remember (awaiting s) as l eqn:Hl. revert s Hl.
  induction l as [|[k p] l IH]; intros s Hl Hv Hzero; simpl.
  - exists s. by rewrite app_nil_r.
  - unfold connectDB_resume. rewrite <- Hl. simpl.
    rewrite decide_True by done.
    assert (p = 0) as -> by (apply (Hzero k); by left).
    rewrite Hv.
    destruct v as [|m|err]; simpl in Hr; [discriminate| |];
      injection Hr as <-.
    + destruct (IH (finish e k (Returned m) (set_conn m (set_awaiting l s))))
        as (s' & Hrun & Ha & Hf & Hc & Hp); [done | done | |].
      { intros k' p' Hin. apply (Hzero k'). by right. }
      exists s'. split; [done|]. simpl in *.
      by rewrite Hf, <- app_assoc.
    + destruct (IH (finish e k (Threw err) (set_awaiting l s)))
        as (s' & Hrun & Ha & Hf & Hc & Hp); [done | done | |].
      { intros k' p' Hin. apply (Hzero k'). by right. }
      exists s'. split; [done|]. simpl in *.
      by rewrite Hf, <- app_assoc.
Qed.

End ServerlessOutcomes.

(** X11: in one process lifetime the calls of [connectDB] that have ended
    all ended the way the one promise was settled: a call threw only the
    error the promise was rejected with, a call returned only the value it
    was fulfilled with (so no lifetime has both), and while the attempt is
    not made or not settled no call has ended and no session middleware has
    been built. *)
Theorem outcomes_follow_promise
        (e : Js.env) (w : Mongo.world) (tr : list Serverless.label)
        (s : Serverless.state) :
  Serverless.run e tr (Serverless.init w) = Some s →
  (∀ k err, (k, Serverless.Threw err) ∈ Serverless.finished s →
            Serverless.promises s = [Rejected err])
  ∧ (∀ k m, (k, Serverless.Returned m) ∈ Serverless.finished s →
            Serverless.promises s = [Fulfilled m])
  ∧ (Serverless.promises s = [] ∨ Serverless.promises s = [Pending] →
     Serverless.finished s = [] ∧ Serverless.sessions s = []).
Proof.
  intros Hrun.
  pose proof (inv_reachable e w tr s Hrun) as Hinv.
  destruct (outcome_inv_reachable e w tr s Hrun) as [Hthrew _].
  assert (∀ k m, (k, Serverless.Returned m) ∈ Serverless.finished s →
                 Serverless.promises s = [Fulfilled m]) as Hret.
  { intros k m Hin. apply (only_promise e); [done|].
    destruct Hinv as [_ _ _ _ Hconn Hfin _ _]. eauto. }
  split; [|split; [done|]].
  - intros k err Hin. apply (only_promise e); eauto.
  - intros Hnot.
    assert (∀ x, x ∈ Serverless.finished s → False) as Hnone.
    { intros [k [m|err]] Hin.
      - specialize (Hret _ _ Hin). destruct Hnot; congruence.
      - specialize (Hthrew _ _ Hin).
        destruct Hnot as [Hn|Hn]; rewrite Hn in Hthrew; discriminate. }
    assert (Serverless.finished s = []) as Hnil.
    { destruct (Serverless.finished s) as [|x l]; [done|].
      destruct (Hnone x). by left. }
    split; [done|]. destruct Hinv as [_ _ _ _ _ _ _ Hsess].
    rewrite Hsess. unfold Serverless.session_returns. by rewrite Hnil.
Qed.

Lemma outcomes_follow_promise_witness :
  let k1 := Serverless.SessionMiddleware 1 in
  let k2 := Serverless.HealthCheck 1 in
  let tr := [Serverless.Call k1; Serverless.Call k2;
             Serverless.Settle 0 (ConnectError sample_connect_error)
               Mongo.no_faults;
             Serverless.Resume k1] in
  ∃ s, Serverless.run ∅ tr (Serverless.init sample_world) = Some s
       ∧ Serverless.finished s = [(k1, Serverless.Threw sample_connect_error)]
       ∧ Serverless.promises s = [Rejected sample_connect_error].
Proof.
  intros k1 k2 tr.
  set (s := default (Serverless.init sample_world)
              (Serverless.run ∅ tr (Serverless.init sample_world))).
  assert (Serverless.run ∅ tr (Serverless.init sample_world) = Some s) as Hrun
    by (vm_compute; reflexivity).
  assert (Serverless.finished s
          = [(k1, Serverless.Threw sample_connect_error)]) as Hfin
    by (vm_compute; reflexivity).
  clearbody s. exists s. split; [exact Hrun|]. split; [exact Hfin|].
  destruct (outcomes_follow_promise ∅ sample_world tr s Hrun) as [Hthrew _].
  apply (Hthrew k1). rewrite Hfin. by left.
Defined.



(** X13: the cache only grows: from any state the process can reach,
    whatever happens next, [cached.conn] and [cached.promise] keep the
    value they have once they have one, [mongoose.connect] is not called
    fewer times, and the calls that have ended and the session middlewares
    built stay as they are, with later ones added behind. *)
Theorem cache_is_stable
        (e : Js.env) (w : Mongo.world) (tr1 tr2 : list Serverless.label)
        (s s' : Serverless.state) :
  Serverless.run e tr1 (Serverless.init w) = Some s →
  Serverless.run e tr2 s = Some s' →
  (∀ m, Serverless.cached_conn s = Some m → Serverless.cached_conn s' = Some m)
  ∧ (∀ p, Serverless.cached_promise s = Some p →
          Serverless.cached_promise s' = Some p)
  ∧ (Serverless.connects s ≤ Serverless.connects s')%nat
  ∧ Serverless.finished s `prefix_of` Serverless.finished s'
  ∧ Serverless.sessions s `prefix_of` Serverless.sessions s'.
Proof.
  intros Hrun1 Hrun2. apply (run_stable e tr2); [|done].
  by apply (inv_reachable e w tr1).
Qed.

Lemma cache_is_stable_witness :
  let k1 := Serverless.SessionMiddleware 1 in
  let tr1 := [Serverless.Call k1;
              Serverless.Settle 0 (ConnectOk sample_mongoose) Mongo.no_faults;
              Serverless.Resume k1] in
  let tr2 := [Serverless.Call (Serverless.HealthCheck 1);
              Serverless.Call (Serverless.SessionMiddleware 2)] in
  ∃ s s', Serverless.run ∅ tr1 (Serverless.init sample_world) = Some s
          ∧ Serverless.run ∅ tr2 s = Some s'
          ∧ Serverless.cached_conn s = Some sample_mongoose
          ∧ Serverless.cached_conn s' = Some sample_mongoose.
Proof.
  intros k1 tr1 tr2.
  set (s := default (Serverless.init sample_world)
              (Serverless.run ∅ tr1 (Serverless.init sample_world))).
  set (s' := default s (Serverless.run ∅ tr2 s)).
  assert (Serverless.run ∅ tr1 (Serverless.init sample_world) = Some s) as H1
    by (vm_compute; reflexivity).
  assert (Serverless.run ∅ tr2 s = Some s') as H2
    by (vm_compute; reflexivity).
  assert (Serverless.cached_conn s = Some sample_mongoose) as Hc
    by (vm_compute; reflexivity).
  clearbody s' s. exists s, s'. split; [exact H1|]. split; [exact H2|]. split; [exact Hc|].
  destruct (cache_is_stable ∅ sample_world tr1 tr2 s s' H1 H2) as [Hconn _].
  exact (Hconn sample_mongoose Hc).
Defined.

(** X14: the calls that are suspended all await the promise that is in the
    cache, and [mongoose.connect] has been called exactly once for them:
    calls that arrive while the attempt is in flight share it. *)
Theorem single_flight
        (e : Js.env) (w : Mongo.world) (tr : list Serverless.label)
        (s : Serverless.state) (k : Serverless.site) (p : nat) :
  Serverless.run e tr (Serverless.init w) = Some s →
  (k, p) ∈ Serverless.awaiting s →
  Serverless.cached_promise s = Some p
  ∧ Serverless.connects s = 1%nat
  ∧ is_Some (Serverless.promises s !! p).
Proof.
  intros Hrun Hin.
  destruct (inv_reachable e w tr s Hrun)
    as [Hconnects Honce Hnull Href _ _ Hawait _].
  specialize (Hawait _ _ Hin).
  destruct (Serverless.cached_promise s) as [q|] eqn:Hq.
  - specialize (Href _ eq_refl). split; [f_equal; lia|]. split; [lia|].
    by apply lookup_lt_is_Some.
  - rewrite Hnull in Hawait by done. simpl in Hawait. lia.
Qed.

Lemma single_flight_witness :
  let k1 := Serverless.SessionMiddleware 1 in
  let k2 := Serverless.SessionMiddleware 2 in
  let tr := [Serverless.Call k1; Serverless.Call k2] in
  ∃ s, Serverless.run ∅ tr (Serverless.init sample_world) = Some s
       ∧ Serverless.awaiting s = [(k1, 0%nat); (k2, 0%nat)]
       ∧ Serverless.connects s = 1%nat.
Proof.
  intros k1 k2 tr.
  set (s := default (Serverless.init sample_world)
              (Serverless.run ∅ tr (Serverless.init sample_world))).
  assert (Serverless.run ∅ tr (Serverless.init sample_world) = Some s) as Hrun
    by (vm_compute; reflexivity).
  assert (Serverless.awaiting s = [(k1, 0%nat); (k2, 0%nat)]) as Ha
    by (vm_compute; reflexivity).
  clearbody s. exists s. split; [exact Hrun|]. split; [exact Ha|].
  apply (single_flight ∅ sample_world tr s k2 0 Hrun).
  rewrite Ha. right. by left.
Defined.

(** X15: once the attempt is settled no call stays suspended for good:
    resuming the suspended calls in the order they were suspended is
    possible, empties the queue and ends each of them the way the promise
    was settled, with no further call of [mongoose.connect]. *)
Theorem suspended_calls_drain
        (e : Js.env) (w : Mongo.world) (tr : list Serverless.label)
        (s : Serverless.state) (v : promise Mongo.mongoose)
        (r : Serverless.returned) :
  Serverless.run e tr (Serverless.init w) = Some s →
  Serverless.promises s !! 0%nat = Some v →
  outcome_of v = Some r →
  ∃ s', Serverless.run e (Serverless.Resume <$> (Serverless.awaiting s).*1) s
        = Some s'
        ∧ Serverless.awaiting s' = []
        ∧ Serverless.finished s'
          = Serverless.finished s
            ++ ((λ k, (k, r)) <$> (Serverless.awaiting s).*1)
        ∧ Serverless.connects s' = Serverless.connects s.
Proof.
  intros Hrun Hv Hr.
  destruct (inv_reachable e w tr s Hrun) as [_ Honce _ _ _ _ Hawait _].
  destruct (resume_in_order e v r s Hr Hv) as (s' & H1 & H2 & H3 & H4 & _).
  { intros k p Hin. specialize (Hawait _ _ Hin). lia. }
  by exists s'.
Qed.

Lemma suspended_calls_drain_witness :
  let k1 := Serverless.SessionMiddleware 1 in
  let k2 := Serverless.HealthCheck 1 in
  let tr := [Serverless.Call k1; Serverless.Call k2;
             Serverless.Settle 0 (ConnectOk sample_mongoose) Mongo.no_faults] in
  ∃ s s', Serverless.run ∅ tr (Serverless.init sample_world) = Some s
          ∧ Serverless.run ∅ (Serverless.Resume <$> (Serverless.awaiting s).*1) s
            = Some s'
          ∧ Serverless.awaiting s' = [].
Proof.
  intros k1 k2 tr.
  set (s := default (Serverless.init sample_world)
              (Serverless.run ∅ tr (Serverless.init sample_world))).
  assert (Serverless.run ∅ tr (Serverless.init sample_world) = Some s) as Hrun
    by (vm_compute; reflexivity).
  assert (Serverless.promises s !! 0%nat = Some (Fulfilled sample_mongoose))
    as Hv by (vm_compute; reflexivity).
  clearbody s.
  destruct (suspended_calls_drain ∅ sample_world tr s
              (Fulfilled sample_mongoose) (Serverless.Returned sample_mongoose)
              Hrun Hv eq_refl) as (s' & Hs' & Hempty & _).
  exists s, s'. split; [exact Hrun|]. split; [exact Hs' | exact Hempty].
Defined.

(* ===================================================================== *)
(** ** Further properties of the classic process                          *)
(* ===================================================================== *)

Section ClassicStore.
Import Js Mongo.
Import Classic.

Context (e : env).





Lemma exec_responses (l : label) (s s' : state) :
  exec e l s = Some s' →
  responses s'
  = responses s ++ ((λ req, (req, healthCheck e None)) <$> requests_of [l]).
Proof.
  unfold exec. destruct (exited s); [discriminate|].
  destruct l as [[m|err] fl|req|u]; simpl.
  - destruct (clientPromise s); try discriminate.
    destruct (onConnected fl m (world s)) as [[c|err] w'];
      intros [= <-]; simpl; by rewrite app_nil_r.
  - destruct (clientPromise s); try discriminate.
    intros [= <-]; simpl; by rewrite app_nil_r.
  - destruct (listening s); [|discriminate]. by intros [= <-].
  - destruct (clientPromise s); try discriminate.
    intros [= <-]; simpl; by rewrite app_nil_r.
Qed.

Lemma requests_of_cons (l : label) (tr : list label) :
  requests_of (l :: tr) = requests_of [l] ++ requests_of tr.
Proof. by destruct l. Qed.

Lemma run_responses (tr : list label) (s s' : state) :
  run e tr s = Some s' →
  responses s'
  = responses s ++ ((λ req, (req, healthCheck e None)) <$> requests_of tr).
Proof.
  revert s. induction tr as [|l tr IH]; intros s; cbn [run].
  - intros [= <-]. by rewrite app_nil_r.
  - destruct (exec e l s) as [s1|] eqn:Hexec; [|discriminate]. intros Hrun.
    rewrite (IH _ Hrun), (exec_responses _ _ _ Hexec), <- app_assoc.
    by rewrite (requests_of_cons l tr), fmap_app.
Qed.

End ClassicStore.

(** X16: the classic process answers every health check that reaches it
    while it is alive, in the order of arrival, with status 200 and
    [loggedIn: false] for a request without session, whether the connect
    attempt is pending, has succeeded or is about to fail. *)
Theorem health_checks_answered
        (e : Js.env) (w : Mongo.world) (tr : list Classic.label)
        (s : Classic.state) :
  Classic.run e tr (Classic.load e w) = Some s →
  Classic.responses s
  = (λ req, (req, Classic.healthCheck e None)) <$> requests_of tr.
Proof. intros Hrun. by rewrite (run_responses e tr _ _ Hrun). Qed.

Lemma health_checks_answered_witness :
  let tr := [Classic.Request 1;
             Classic.Settle (ConnectOk sample_mongoose) Mongo.no_faults;
             Classic.Request 2; Classic.StoreUse 0] in
  ∃ s, Classic.run ∅ tr (Classic.load ∅ sample_world) = Some s
       ∧ Classic.responses s
         = [(1%nat, Classic.healthCheck ∅ None);
            (2%nat, Classic.healthCheck ∅ None)].
Proof.
  intros tr.
  set (s := default (Classic.load ∅ sample_world)
              (Classic.run ∅ tr (Classic.load ∅ sample_world))).
  assert (Classic.run ∅ tr (Classic.load ∅ sample_world) = Some s) as Hrun
    by (vm_compute; reflexivity).
  clearbody s. exists s. split; [exact Hrun|].
  rewrite (health_checks_answered ∅ sample_world tr s Hrun). reflexivity.
Defined.



(* ===================================================================== *)
(** ** The warm process and the serverless health check                   *)
(* ===================================================================== *)

Section WarmProcess.
Import Js Mongo.

Context (e : env) (w : Mongo.world).

(** Evaluating the module again does not touch a cache that is there. *)
Lemma warm_run_loaded (tr : list Warm.label) (s0 : Serverless.state)
      (g : option Serverless.state) :
  Warm.run e w tr (Some s0) = Some g →
  ∃ s, g = Some s ∧ Serverless.run e (Warm.events_of tr) s0 = Some s.
Proof.
  revert s0. induction tr as [|[|l] tr IH]; intros s0; simpl.
  - intros [= <-]. by exists s0.
  - apply IH.
  - destruct (Serverless.exec e l s0) as [s1|]; simpl; [apply IH | discriminate].
Qed.

End WarmProcess.

(** X18: evaluating the serverless module again in a warm process reuses
    the cache in [global.mongoose]: nothing can run before the first
    evaluation, and after it the process is in a state that the turns of
    the trace alone, without the later evaluations, lead to from an empty
    cache; so [mongoose.connect] is still called at most once. *)
Theorem warm_reload_keeps_cache
        (e : Js.env) (w : Mongo.world) (tr : list Warm.label)
        (g : option Serverless.state) :
  Warm.run e w tr None = Some g →
  (tr = [] ∧ g = None)
  ∨ ∃ tr' s, tr = Warm.Load :: tr' ∧ g = Some s
             ∧ Serverless.run e (Warm.events_of tr') (Serverless.init w)
               = Some s
             ∧ (Serverless.connects s ≤ 1)%nat.
Proof.
  destruct tr as [|[|l] tr]; simpl.
  - intros [= <-]. by left.
  - intros Hrun. right.
    destruct (warm_run_loaded e w tr _ _ Hrun) as (s & -> & Hs).
    exists tr, s. repeat split; try done.
    destruct (inv_reachable e w _ s Hs) as [Hc Honce _ _ _ _ _ _]. lia.
  - discriminate.
Qed.

Lemma warm_reload_keeps_cache_witness :
  let k1 := Serverless.SessionMiddleware 1 in
  let k2 := Serverless.SessionMiddleware 2 in
  let tr := [Warm.Load; Warm.Event (Serverless.Call k1);
             Warm.Event (Serverless.Settle 0 (ConnectOk sample_mongoose)
                           Mongo.no_faults);
             Warm.Event (Serverless.Resume k1);
             Warm.Load; Warm.Event (Serverless.Call k2)] in
  ∃ s, Warm.run ∅ sample_world tr None = Some (Some s)
       ∧ Serverless.finished s
         = [(k1, Serverless.Returned sample_mongoose);
            (k2, Serverless.Returned sample_mongoose)]
       ∧ (Serverless.connects s ≤ 1)%nat.
Proof.
  intros k1 k2 tr.
  set (s := default (Serverless.init sample_world)
              (default None (Warm.run ∅ sample_world tr None))).
  assert (Warm.run ∅ sample_world tr None = Some (Some s)) as Hrun
    by (vm_compute; reflexivity).
  assert (Serverless.finished s
          = [(k1, Serverless.Returned sample_mongoose);
             (k2, Serverless.Returned sample_mongoose)]) as Hfin
    by (vm_compute; reflexivity).
  clearbody s. exists s. split; [exact Hrun|]. split; [exact Hfin|].
  destruct (warm_reload_keeps_cache ∅ sample_world tr (Some s) Hrun)
    as [[_ Hnone]|(tr' & s' & _ & Hs' & _ & Hle)]; [discriminate|].
  injection Hs' as <-. exact Hle.
Defined.

(** X19: the serverless health check is answered only with a connection in
    the cache: every answer given is the 200 body for the user of its
    request, and in a process whose connect attempt was rejected no health
    check is answered. *)
Theorem health_needs_connection
        (e : Js.env) (w : Mongo.world) (user_of : nat → option string)
        (tr : list Serverless.label) (s : Serverless.state) :
  Serverless.run e tr (Serverless.init w) = Some s →
  (∀ req h, (req, h) ∈ ServerlessHealth.answers e user_of s →
     h = ServerlessHealth.healthCheck e (user_of req)
     ∧ Classic.h_code h = 200
     ∧ ∃ m, Serverless.cached_conn s = Some m)
  ∧ (∀ err, Serverless.promises s = [Rejected err] →
            ServerlessHealth.answers e user_of s = []).
Proof.
  intros Hrun.
  destruct (inv_reachable e w tr s Hrun) as [_ _ _ _ Hconn Hfin _ _].
  assert (∀ req h, (req, h) ∈ ServerlessHealth.answers e user_of s →
            h = ServerlessHealth.healthCheck e (user_of req)
            ∧ ∃ m, Serverless.cached_conn s = Some m) as Hans.
  { intros req h Hin. unfold ServerlessHealth.answers in Hin.
    apply list_elem_of_omap in Hin as ([[req'|req'] [m|err]] & Hin & Heq);
      try discriminate.
    injection Heq as <- <-. split; [done|]. exists m. eauto. }
  split.
  - intros req h Hin. destruct (Hans req h Hin) as [-> Hm]. by repeat split.
  - intros err Hrej.
    assert (∀ x, x ∈ ServerlessHealth.answers e user_of s → False) as Hnone.
    { intros [req h] Hin. destruct (Hans req h Hin) as [_ [m Hm]].
      specialize (Hconn _ Hm). rewrite Hrej in Hconn. discriminate. }
    destruct (ServerlessHealth.answers e user_of s) as [|x l]; [done|].
    destruct (Hnone x). by left.
Qed.

Lemma health_needs_connection_witness :
  let tr := [Serverless.Call (Serverless.HealthCheck 1);
             Serverless.Settle 0 (ConnectError sample_connect_error)
               Mongo.no_faults;
             Serverless.Resume (Serverless.HealthCheck 1);
             Serverless.Call (Serverless.HealthCheck 2);
             Serverless.Resume (Serverless.HealthCheck 2)] in
  ∃ s, Serverless.run ∅ tr (Serverless.init sample_world) = Some s
       ∧ ServerlessHealth.answers ∅ (λ _, None) s = [].
Proof.
  intros tr.
  set (s := default (Serverless.init sample_world)
              (Serverless.run ∅ tr (Serverless.init sample_world))).
  assert (Serverless.run ∅ tr (Serverless.init sample_world) = Some s) as Hrun
    by (vm_compute; reflexivity).
  assert (Serverless.promises s = [Rejected sample_connect_error]) as Hp
    by (vm_compute; reflexivity).
  clearbody s. exists s. split; [exact Hrun|].
  destruct (health_needs_connection ∅ sample_world (λ _, None) tr s Hrun)
    as [_ Hrej].
  exact (Hrej sample_connect_error Hp).
Defined.
